(** * stream-yolo: the streaming protocol and its benchmark harness

    A shallow embedding of
      - [py_server/main.py]       (the detection server),
      - [py_server/client.py]     (the single-session client),
      - [py_server/utils/test.py] (the multi-client load harness),
      - [results/summary.py]      (the offline CSV analysis),
    followed by the properties of the specification that concern them.

    Conventions of the embedding.
      - A finite Python float is idealised as a rational ([Q]) and arithmetic
        on finite values is exact.  The elements of the engine's output can
        also be NaN or an infinity ([Numeric.float]); the clock readings and
        what is computed from them are finite.  [round], [int] and true
        division are written out below.
      - A Python exception is a value of [exn]; a computation that may raise
        returns [result].
      - What the operating system, OpenCV, the network and the ONNX runtime
        decide is an input of the model: the pixel resampling and the JPEG
        codec are fields of the class [OpenCV], the engine is the class
        [Engine], and the fate of a client session (does the video open, does
        the socket connect, what does each round trip return) is a record
        [world]. *)

From Stdlib Require Import QArith Qround Lqa ZArith List String Strings.Byte Lia.
From stdpp Require Import base option list gmap strings pretty.

(** ** Exceptions and fallible computations *)

Inductive exn : Type :=
| TypeError
| ValueError
| StatisticsError
| OSError
| OverflowError
| CvError                  (* an error of the OpenCV bindings *)
| ConnectionRefusedError
| ConnectionClosed
| OtherError.

Inductive result (A : Type) : Type :=
| Ok (a : A)
| Raise (e : exn).
Arguments Ok {A} a.
Arguments Raise {A} e.

Definition bind {A B : Type} (m : result A) (k : A -> result B) : result B :=
  match m with
  | Ok a => k a
  | Raise e => Raise e
  end.

Notation "x <- m ;; k" := (bind m (fun x => k))
  (at level 100, m at next level, right associativity).

Definition is_ok {A : Type} (m : result A) : bool :=
  match m with Ok _ => true | Raise _ => false end.

(** [for x in xs: ...] with a body that may raise: the first exception ends
    the loop. *)
Fixpoint for_each {A S : Type} (body : S -> A -> result S) (xs : list A) (s : S)
  : result S :=
  match xs with
  | [] => Ok s
  | x :: rest => s' <- body s x ;; for_each body rest s'
  end.

(** ** Python numerics over the rationals *)

Module Numeric.

(** Nearest integer, ties to the even one: the rounding of Python's
    [round]. *)
Definition round_half_even (q : Q) : Z :=
  let f := Qfloor q in
  match Qcompare (q - inject_Z f) (1 # 2) with
  | Lt => f
  | Gt => (f + 1)%Z
  | Eq => if Z.even f then f else (f + 1)%Z
  end.

Definition pow10 (ndigits : nat) : positive :=
  Nat.iter ndigits (Pos.mul 10) 1%positive.

(** [round(x, ndigits)] *)
Definition round (x : Q) (ndigits : nat) : Q :=
  round_half_even (x * inject_Z (Z.pos (pow10 ndigits))) # pow10 ndigits.

(** [int(x)]: truncation towards zero. *)
Definition int (x : Q) : Z := Z.quot (Qnum x) (Z.pos (Qden x)).

(** [a / b] on numbers; the quotient is kept in lowest terms. *)
Definition truediv (a b : Q) : Q := Qred (a / b).

Definition Qlt_bool (a b : Q) : bool :=
  match Qcompare a b with Lt => true | _ => false end.

Definition Qmin (a b : Q) : Q := if Qlt_bool b a then b else a.
Definition Qmax (a b : Q) : Q := if Qlt_bool a b then b else a.

Definition sum (l : list Q) : Q := fold_left Qplus l 0%Q.

(** [min(l)] and [max(l)] of a non-empty list, given as head and tail. *)
Definition min_of (x : Q) (l : list Q) : Q := fold_left Qmin l x.
Definition max_of (x : Q) (l : list Q) : Q := fold_left Qmax l x.

(** *** Floats that need not be finite

    The elements of a NumPy float array, and what Python computes from
    them. *)
Inductive float : Type :=
| Finite (q : Q)
| NaN
| Inf (negative : bool).

(** [x < c] for a finite [c]: every comparison with NaN is false. *)
Definition lt_f (x : float) (c : Q) : bool :=
  match x with
  | Finite q => Qlt_bool q c
  | NaN => false
  | Inf negative => negative
  end.

(** [x * s] for a finite [s]: [inf * 0] is NaN. *)
Definition mul_f (x : float) (s : Q) : float :=
  match x with
  | Finite q => Finite (q * s)
  | NaN => NaN
  | Inf negative =>
      match Qcompare s 0 with
      | Eq => NaN
      | Lt => Inf (negb negative)
      | Gt => Inf negative
      end
  end.

(** [int(x)]: [ValueError] on NaN, [OverflowError] on an infinity. *)
Definition int_f (x : float) : result Z :=
  match x with
  | Finite q => Ok (int q)
  | NaN => Raise ValueError
  | Inf _ => Raise OverflowError
  end.

(** [round(x, ndigits)]: NaN and the infinities are returned unchanged. *)
Definition round_f (x : float) (ndigits : nat) : float :=
  match x with
  | Finite q => Finite (round q ndigits)
  | _ => x
  end.

Definition is_finite (x : float) : Prop :=
  match x with Finite _ => True | _ => False end.

End Numeric.

(** ** NumPy arrays

    An array is its shape and its elements in row-major order.  Only the
    operations [postprocess] performs are modelled, each with the exception
    NumPy raises where it raises one. *)

Module NumPy.

Record ndarray : Type := { shape : list nat; data : list Numeric.float }.

(** [a.size] *)
Definition size (a : ndarray) : nat := fold_right Nat.mul 1%nat (shape a).

(** A well-formed array holds exactly [size] elements. *)
Definition wf (a : ndarray) : Prop := length (data a) = size a.

(** [a.ndim] *)
Definition ndim (a : ndarray) : nat := length (shape a).

(** [a.squeeze()]: every axis of length one is dropped. *)
Definition squeeze (a : ndarray) : ndarray :=
  {| shape := filter (fun d => d <> 1%nat) (shape a); data := data a |}.

(** [a[np.newaxis]] *)
Definition newaxis (a : ndarray) : ndarray :=
  {| shape := 1%nat :: shape a; data := data a |}.

(** [n] consecutive blocks of [k] elements *)
Fixpoint chunks (n k : nat) (l : list Numeric.float) : list (list Numeric.float) :=
  match n with
  | O => []
  | S n' => take k l :: chunks n' k (drop k l)
  end.

(** [len(a)]: the first axis; a 0-d array is unsized. *)
Definition len (a : ndarray) : result nat :=
  match shape a with
  | [] => Raise TypeError
  | n :: _ => Ok n
  end.

(** [for row in a] / [iter(a)]: the sub-arrays along the first axis;
    iteration over a 0-d array raises [TypeError]. *)
Definition iter (a : ndarray) : result (list ndarray) :=
  match shape a with
  | [] => Raise TypeError
  | n :: rest =>
      Ok (map (fun d => {| shape := rest; data := d |})
              (chunks n (fold_right Nat.mul 1%nat rest) (data a)))
  end.

(** [a[:k]] on the first axis; indexing a 0-d array raises [IndexError],
    reported here as [ValueError]. *)
Definition slice_to (k : nat) (a : ndarray) : result ndarray :=
  match shape a with
  | [] => Raise ValueError
  | n :: rest =>
      Ok {| shape := Nat.min k n :: rest;
            data := take (Nat.min k n * fold_right Nat.mul 1%nat rest) (data a) |}
  end.

(** [float(a)], [int(a)] and arithmetic with a Python scalar go through the
    single element of [a]; an array of another size raises [TypeError]. *)
Definition item (a : ndarray) : result Numeric.float :=
  match data a with
  | [v] => Ok v
  | _ => Raise TypeError
  end.

(** [if a < c:]: the truth value of the element-wise comparison; it is
    defined for one element and raises [ValueError] otherwise. *)
Definition truth_lt (a : ndarray) (c : Q) : result bool :=
  match data a with
  | [v] => Ok (Numeric.lt_f v c)
  | _ => Raise ValueError
  end.

(** A one-dimensional array of [m] elements. *)
Definition is_row (m : nat) (row : ndarray) : Prop :=
  shape row = [m] /\ length (data row) = m.

End NumPy.

(** ** External collaborators *)

(** A decoded image: [frame.shape[:2]] is [(height, width)]; the pixel bytes
    are carried along and never inspected. *)
Record frame : Type := { height : nat; width : nat; pixels : list Z }.

(** The part of OpenCV the programs call: the resampling behind
    [cv2.resize], [cv2.imencode(".jpg", ...)] and [cv2.imdecode].
    [imdecode] returns [None] for bytes that are not an image and raises
    [cv2.error] where OpenCV does; it does on an empty buffer. *)
Class OpenCV : Type := {
  resample : frame -> nat -> nat -> list Z;
  imencode : frame -> list byte;
  imdecode : list byte -> result (option frame);
  imdecode_empty : imdecode [] = Raise CvError
}.

(** [cv2.resize(f, (w, h))] *)
Definition cv2_resize `{cv : OpenCV} (f : frame) (w h : nat) : frame :=
  {| height := h; width := w; pixels := resample f w h |}.

(** JPEG compression loses pixel precision but keeps the image size. *)
Class CodecKeepsShape `{cv : OpenCV} : Prop :=
  codec_keeps_shape :
    forall f, exists g,
      imdecode (imencode f) = Ok (Some g) /\
      height g = height f /\ width g = width f.

(** The loaded ONNX session: [session.run(None, {"images": inp})[0]] and the
    class names read from the model's metadata at start-up. *)
Class Engine : Type := {
  session_run : frame -> NumPy.ndarray;
  CLASS_NAMES : gmap Z string
}.

(** ** The detection server ([py_server/main.py]) *)

Module Server.

Definition INPUT_SIZE : nat := 640.
Definition CONF_THRESHOLD : Q := 4 # 10.

(** One entry of the ["detections"] list of a reply. *)
Record detection : Type := {
  box : list Z;
  score : Numeric.float;
  label : Z;
  name : string
}.

(** What [send_json] writes: [{"detections": [...]}] or [{"error": ...}]. *)
Inductive reply : Type :=
| Detections (ds : list detection)
| ErrorReply (msg : string).

(** [CLASS_NAMES.get(label, f"cls{label}")] *)
Definition class_name (names : gmap Z string) (l : Z) : string :=
  default ("cls" +:+ pretty l) (names !! l).

Definition preprocess `{cv : OpenCV} (f : frame) : frame * Q * Q :=
  let orig_h := height f in
  let orig_w := width f in
  let resized := cv2_resize f INPUT_SIZE INPUT_SIZE in
  let scale_x :=
    Numeric.truediv (inject_Z (Z.of_nat orig_w)) (inject_Z (Z.of_nat INPUT_SIZE)) in
  let scale_y :=
    Numeric.truediv (inject_Z (Z.of_nat orig_h)) (inject_Z (Z.of_nat INPUT_SIZE)) in
  (resized, scale_x, scale_y).

(** The dictionary appended for a row that passed the threshold; its
    entries are evaluated in the order of the source, and [int] raises on a
    coordinate or a label that is NaN or infinite. *)
Definition make_detection (names : gmap Z string)
    (x1 y1 x2 y2 score label : Numeric.float) (scale_x scale_y : Q)
  : result detection :=
  b1 <- Numeric.int_f (Numeric.mul_f x1 scale_x) ;;
  b2 <- Numeric.int_f (Numeric.mul_f y1 scale_y) ;;
  b3 <- Numeric.int_f (Numeric.mul_f x2 scale_x) ;;
  b4 <- Numeric.int_f (Numeric.mul_f y2 scale_y) ;;
  l <- Numeric.int_f label ;;
  Ok {| box := [b1; b2; b3; b4];
        score := Numeric.round_f score 4;
        label := l;
        name := class_name names l |}.

(** The body of [for row in dets]. *)
Definition postprocess_row (names : gmap Z string) (scale_x scale_y : Q)
    (results : list detection) (row : NumPy.ndarray) : result (list detection) :=
  n <- NumPy.len row ;;
  if (n <? 6)%nat then Ok results
  else
    head <- NumPy.slice_to 6 row ;;
    cols <- NumPy.iter head ;;
    match cols with
    | [x1; y1; x2; y2; score; label] =>
        low <- NumPy.truth_lt score CONF_THRESHOLD ;;
        if low then Ok results
        else
          x1 <- NumPy.item x1 ;;
          y1 <- NumPy.item y1 ;;
          x2 <- NumPy.item x2 ;;
          y2 <- NumPy.item y2 ;;
          score <- NumPy.item score ;;
          label <- NumPy.item label ;;
          d <- make_detection names x1 y1 x2 y2 score label scale_x scale_y ;;
          Ok (results ++ [d])
    | _ => Raise ValueError
    end.

(** [raw] is [None] or an array. *)
Definition postprocess (names : gmap Z string) (raw : option NumPy.ndarray)
    (scale_x scale_y : Q) : result (list detection) :=
  match raw with
  | None => Ok []
  | Some raw =>
      if (NumPy.size raw =? 0)%nat then Ok []
      else
        let dets := NumPy.squeeze raw in
        let dets := if (NumPy.ndim dets =? 1)%nat then NumPy.newaxis dets else dets in
        rows <- NumPy.iter dets ;;
        for_each (postprocess_row names scale_x scale_y) rows []
  end.

Definition infer `{cv : OpenCV} `{eng : Engine} (f : frame) : result (list detection) :=
  let '(inp, scale_x, scale_y) := preprocess f in
  postprocess CLASS_NAMES (Some (session_run inp)) scale_x scale_y.

(** How a connection handler ends: the peer went away
    ([WebSocketDisconnect]) or another exception was caught and printed. *)
Inductive closed : Type :=
| Disconnected
| Crashed (e : exn).

(** The handler of [/ws/stream], run on the binary messages the peer sends
    before it disconnects.  It returns the replies sent, in order, and the
    way the handler ended. *)
Fixpoint ws_stream `{cv : OpenCV} `{eng : Engine} (msgs : list (list byte))
  : list reply * closed :=
  match msgs with
  | [] => ([], Disconnected)
  | data :: rest =>
      match imdecode data with
      | Raise e => ([], Crashed e)
      | Ok None =>
          let '(sent, c) := ws_stream rest in
          (ErrorReply "invalid image" :: sent, c)
      | Ok (Some f) =>
          match infer f with
          | Raise e => ([], Crashed e)
          | Ok detections =>
              let '(sent, c) := ws_stream rest in
              (Detections detections :: sent, c)
          end
      end
  end.

(** *** Vocabulary for the statements about detections *)


(** The shapes of the docstring of [postprocess], [(N, 6)] and [(1, N, 6)],
    and more generally every array that is one- or two-dimensional once
    squeezed. *)
Definition row_shaped (a : NumPy.ndarray) : Prop :=
  NumPy.ndim (NumPy.squeeze a) = 1%nat \/ NumPy.ndim (NumPy.squeeze a) = 2%nat.

(** The arguments [postprocess] is written for: [None], an empty array, or
    an array of rows; the numbers in it are finite. *)
Definition documented (raw : option NumPy.ndarray) : Prop :=
  match raw with
  | None => True
  | Some a =>
      NumPy.wf a /\ (NumPy.size a = 0%nat \/ row_shaped a) /\
      Forall Numeric.is_finite (NumPy.data a)
  end.

(** The reply owed to one binary message; none is owed to a message on
    which [imdecode] raises. *)
Definition answers `{cv : OpenCV} `{eng : Engine} (data : list byte) (r : reply)
  : Prop :=
  match imdecode data with
  | Raise _ => False
  | Ok None => r = ErrorReply "invalid image"
  | Ok (Some f) => exists ds, infer f = Ok ds /\ r = Detections ds
  end.

End Server.

(** ** Benchmark records and their summary
    (shared by [client.py] and [utils/test.py]) *)

Module Bench.

(** One appended dictionary.  [client.py] writes no ["client_id"] key. *)
Record record : Type := {
  client_id : option nat;
  frame_no : nat;
  delay_ms : Q;
  fps : Q
}.

(** [delay_ms = (t1 - t0) * 1000] *)
Definition measure_delay (t0 t1 : Q) : Q := (t1 - t0) * 1000.

(** [inst_fps = 1000.0 / delay_ms if delay_ms > 0 else 0.0] *)
Definition inst_fps (delay : Q) : Q :=
  if Numeric.Qlt_bool 0 delay then Numeric.truediv 1000 delay else 0.

(** The dictionary appended after the round trip of frame [idx]. *)
Definition make_record (cid : option nat) (idx : nat) (t0 t1 : Q) : record :=
  let delay := measure_delay t0 t1 in
  {| client_id := cid;
     frame_no := idx + 1;
     delay_ms := Numeric.round delay 3;
     fps := Numeric.round (inst_fps delay) 3 |}.

(** The figures [print_benchmark_summary] prints. *)
Record summary : Type := {
  count : nat;
  delay_min : Q; delay_max : Q; delay_avg : Q;
  fps_min : Q; fps_max : Q; fps_avg : Q
}.

(** [sum(l) / len(l)], exact here: Python rounds each addition and the
    quotient to a double, so the printed average can differ from this one
    in its last digits.  No statement below speaks of its value. *)
Definition average (l : list Q) : Q :=
  Numeric.truediv (Numeric.sum l) (inject_Z (Z.of_nat (length l))).

(** [None]: the function returned at [if not records] and printed
    nothing. *)
Definition print_benchmark_summary (records : list record) : option summary :=
  match records with
  | [] => None
  | r :: rest =>
      let delays := map delay_ms records in
      let fps_list := map fps records in
      Some {| count := length records;
              delay_min := Numeric.min_of (delay_ms r) (map delay_ms rest);
              delay_max := Numeric.max_of (delay_ms r) (map delay_ms rest);
              delay_avg := average delays;
              fps_min := Numeric.min_of (fps r) (map fps rest);
              fps_max := Numeric.max_of (fps r) (map fps rest);
              fps_avg := average fps_list |}
  end.

(** *** Vocabulary for the statements about records *)

Definition half_unit : Q := 1 # 2000.

(** [r] carries the figures of a round trip measured at [delay]
    milliseconds: both columns are within half a unit of the third decimal
    of the exact value, and the fps column is zero for a zero delay. *)
Definition faithful (r : record) (delay : Q) : Prop :=
  (0 <= delay)%Q /\
  (0 <= delay_ms r)%Q /\
  (delay_ms r - half_unit <= delay /\ delay <= delay_ms r + half_unit)%Q /\
  (delay == 0 -> fps r == 0)%Q /\
  (0 < delay ->
   fps r - half_unit <= 1000 / delay /\ 1000 / delay <= fps r + half_unit)%Q.

End Bench.

(** ** A client session: what both clients do per frame *)

Module Session.

Definition YOLO_INPUT_SIZE : nat := 640.

(** The fate of one round trip. [t0] and [t1] are the two readings of
    [time.perf_counter()]. *)
Inductive exchange : Type :=
| Reply (t0 t1 : Q) (msg : Server.reply)
| SendRaises (e : exn)
| RecvRaises (e : exn).

Inductive connect_result : Type :=
| Connected
| ConnectRaises (e : exn).

(** Everything outside the program that a session meets. *)
Record world : Type := {
  cap_isOpened : bool;            (* [cap.isOpened()] *)
  video : list frame;             (* the frames [cap.read()] yields *)
  mkdir_ok : bool;                (* [out_path.parent.mkdir] succeeds *)
  writer_isOpened : bool;         (* [writer.isOpened()] *)
  connect : connect_result;       (* [websockets.connect] *)
  exchanges : nat -> exchange     (* the round trip of frame [idx] *)
}.

Inductive message : Type :=
| CannotOpenVideo
| CannotInitWriter
| CannotConnect (e : exn)
| ConnectionLost (e : exn)
| ClientError (client_id : nat) (e : exn).

Inductive draw_op : Type :=
| Rectangle (x1 y1 x2 y2 : Z)
| PutText (name : string) (score : Numeric.float) (x y : Z).

(** OpenCV takes the coordinates of a point as C [int]s. *)
Definition fits_int (z : Z) : bool := ((- 2 ^ 31 <=? z) && (z <? 2 ^ 31))%Z.

(** The body of the loop of [draw_detections]; a box that is not four
    numbers fails to unpack, and [cv2.rectangle] refuses a corner that is
    not in the range of a C [int] (with [cv2.error], or [OverflowError] in
    some versions of the binding: both are reported as [CvError]). *)
Definition draw_detection (ops : list draw_op) (det : Server.detection)
  : result (list draw_op) :=
  match Server.box det with
  | [x1; y1; x2; y2] =>
      if fits_int x1 && fits_int y1 && fits_int x2 && fits_int y2
      then Ok (ops ++ [ Rectangle x1 y1 x2 y2;
                        PutText (Server.name det) (Server.score det)
                                x1 (Z.max (y1 - 6) 12) ])
      else Raise CvError
  | _ => Raise ValueError
  end.

Definition draw_detections (detections : list Server.detection)
  : result (list draw_op) :=
  for_each draw_detection detections [].

(** [json.loads(msg).get("detections", [])] *)
Definition detections_of (msg : Server.reply) : list Server.detection :=
  match msg with
  | Server.Detections ds => ds
  | Server.ErrorReply _ => []
  end.

(** The observable state of a session. *)
Record session : Type := {
  bench : list Bench.record;        (* the list [bench] *)
  sent : list (list byte);          (* messages handed to [ws.send] *)
  written : list (list draw_op);    (* overlays handed to [writer.write] *)
  log : list message                (* what was printed *)
}.

Definition empty : session :=
  {| bench := []; sent := []; written := []; log := [] |}.

(** The bytes sent for a frame read from the video. *)
Definition encode_frame `{cv : OpenCV} (f : frame) : list byte :=
  imencode (cv2_resize f YOLO_INPUT_SIZE YOLO_INPUT_SIZE).

(** The [while True] loop.  [annotate] says whether detections are parsed
    and drawn ([client.py]: always; [utils/test.py]: [if writer]); [cid] is
    the ["client_id"] written into each record.  The loop ends when the
    video is exhausted ([None]) or with the exception that escaped. *)
Fixpoint loop `{cv : OpenCV} (annotate : bool) (cid : option nat)
    (exchanges : nat -> exchange) (frames : list frame) (idx : nat)
    (st : session) : session * option exn :=
  match frames with
  | [] => (st, None)
  | f :: rest =>
      let buf := encode_frame f in
      match exchanges idx with
      | SendRaises e => (st, Some e)
      | RecvRaises e =>
          ({| bench := bench st; sent := sent st ++ [buf];
              written := written st; log := log st |}, Some e)
      | Reply t0 t1 msg =>
          let drawn :=
            if annotate then ops <- draw_detections (detections_of msg) ;; Ok [ops]
            else Ok [] in
          match drawn with
          | Raise e =>
              ({| bench := bench st; sent := sent st ++ [buf];
                  written := written st; log := log st |}, Some e)
          | Ok ops =>
              loop annotate cid exchanges rest (idx + 1)
                {| bench := bench st ++ [Bench.make_record cid idx t0 t1];
                   sent := sent st ++ [buf];
                   written := written st ++ ops;
                   log := log st |}
          end
      end
  end.

Definition say (m : message) (st : session) : session :=
  {| bench := bench st; sent := sent st; written := written st;
     log := log st ++ [m] |}.

(** *** Vocabulary for the statements about sessions *)

(** A round trip is completed when its reply arrived and, in a session that
    annotates, the reply could be drawn: these are the rounds that reach
    [bench.append]. *)
Definition completed (annotate : bool) (x : exchange) : bool :=
  match x with
  | Reply _ _ msg =>
      if annotate then is_ok (draw_detections (detections_of msg)) else true
  | _ => false
  end.

(** The record a completed round trip of frame [idx] leaves. *)
Definition record_of (cid : option nat) (idx : nat) (x : exchange)
  : option Bench.record :=
  match x with
  | Reply t0 t1 _ => Some (Bench.make_record cid idx t0 t1)
  | _ => None
  end.

(** [time.perf_counter()] never runs backwards. *)
Definition monotonic_clock (w : world) : Prop :=
  forall idx t0 t1 msg, exchanges w idx = Reply t0 t1 msg -> (t0 <= t1)%Q.

(** The trace of a session: it completed the first [k] round trips, left
    one record for each, and sent a prefix of the video. *)
Definition trace `{cv : OpenCV} (annotate : bool) (cid : option nat) (w : world)
    (s : session) (k : nat) : Prop :=
  map Some (bench s) = map (fun j => record_of cid j (exchanges w j)) (seq 0 k) /\
  (k <= length (video w))%nat /\
  (forall j, (j < k)%nat -> completed annotate (exchanges w j) = true) /\
  exists n, sent s = map encode_frame (take n (video w)) /\ (n <= k + 1)%nat.

(** The session ran to the end of a video of [F] frames. *)
Definition completes_fully (annotate : bool) (F : nat) (w : world) : Prop :=
  cap_isOpened w = true /\ (annotate = true -> mkdir_ok w = true) /\
  connect w = Connected /\ length (video w) = F /\
  forall idx, (idx < F)%nat -> completed annotate (exchanges w idx) = true.

End Session.

(** ** The single-session client ([py_server/client.py]) *)

Module Client.
Import Session.

Inductive exit_status : Type :=
| ExitMessage (m : message)   (* [sys.exit("...")] *)
| ExitCode (c : Z).           (* [sys.exit(1)] *)

Inductive outcome : Type :=
| SysExit (status : exit_status)
| Uncaught (e : exn)
| Finished (saved : list Bench.record) (summary : option Bench.summary).

(** The [except] clauses around the connection. *)
Definition on_exception (e : exn) (st : session) : outcome * session :=
  match e with
  | ConnectionRefusedError => (SysExit (ExitCode 1), say (CannotConnect e) st)
  | ConnectionClosed => (SysExit (ExitCode 1), say (ConnectionLost e) st)
  | _ => (Uncaught e, st)
  end.

Definition stream_video `{cv : OpenCV} (w : world) : outcome * session :=
  if negb (cap_isOpened w) then (SysExit (ExitMessage CannotOpenVideo), empty)
  else if negb (writer_isOpened w) then
    (SysExit (ExitMessage CannotInitWriter), empty)
  else
    match connect w with
    | ConnectRaises e => on_exception e empty
    | Connected =>
        match loop true None (exchanges w) (video w) 0 empty with
        | (st, Some e) => on_exception e st
        | (st, None) =>
            (Finished (bench st) (Bench.print_benchmark_summary (bench st)), st)
        end
    end.


End Client.

(** ** The load harness ([py_server/utils/test.py]) *)

Module Harness.
Import Session.

(** The command-line options the sessions read. *)
Record args : Type := {
  video_out : option string;
  clients : nat
}.

(** [if args.video_out:], and with it [if writer:]: the option was given
    and is not the empty string. *)
Definition annotates (a : args) : bool :=
  match video_out a with
  | Some (String _ _) => true
  | _ => false
  end.

(** [stream_video(client_id)].  [Raise] is an exception that escapes the
    coroutine: only the directory creation, which runs before [try]. *)
Definition stream_video `{cv : OpenCV} (a : args) (client_id : nat) (w : world)
  : result session :=
  if negb (cap_isOpened w) then Ok empty
  else
    writer <- (if annotates a
               then if mkdir_ok w then Ok true else Raise OSError
               else Ok false) ;;
    match connect w with
    | ConnectRaises e => Ok (say (ClientError client_id e) empty)
    | Connected =>
        match loop writer (Some client_id) (exchanges w) (video w) 0 empty with
        | (st, Some e) => Ok (say (ClientError client_id e) st)
        | (st, None) => Ok st
        end
    end.

(** [asyncio.gather] over the tasks: the sessions share no state, so each
    result is the one its own world gives; an exception that escapes a
    session escapes [gather]. *)
Fixpoint gather `{cv : OpenCV} (a : args) (worlds : nat -> world) (ids : list nat)
  : result (list session) :=
  match ids with
  | [] => Ok []
  | i :: rest =>
      s <- stream_video a i (worlds i) ;;
      ss <- gather a worlds rest ;;
      Ok (s :: ss)
  end.

(** What [main] leaves behind. *)
Record report : Type := {
  results : list session;
  all_benchmarks : list Bench.record;
  saved : option (list Bench.record);     (* rows given to [save_benchmark] *)
  summary : option Bench.summary          (* the printed summary *)
}.

Definition main `{cv : OpenCV} (a : args) (worlds : nat -> world) : result report :=
  results <- gather a worlds (seq 0 (clients a)) ;;
  let all_benchmarks :=
    fold_left (fun acc s => acc ++ bench s) results [] in
  Ok {| results := results;
        all_benchmarks := all_benchmarks;
        saved := match all_benchmarks with [] => None | _ => Some all_benchmarks end;
        summary := match all_benchmarks with
                   | [] => None
                   | _ => Bench.print_benchmark_summary all_benchmarks
                   end |}.

(** What the claim about setup failures asks of a session: it reported the
    failure and neither sent a frame nor appended a record. *)
Definition reported_abort (r : result session) : Prop :=
  match r with
  | Ok s => log s <> [] /\ sent s = [] /\ bench s = []
  | Raise _ => True
  end.

End Harness.

(** The states a client session can leave behind in a given world, whichever
    of the two programs ran it. *)
Inductive leaves `{cv : OpenCV} (w : Session.world) : Session.session -> Prop :=
| leaves_harness (a : Harness.args) (client_id : nat) (s : Session.session) :
    Harness.stream_video a client_id w = Ok s -> leaves w s
| leaves_client :
    leaves w (snd (Client.stream_video w)).

(** ** The offline analysis ([results/summary.py]) *)

(** The interpreter that runs the scripts: the minor version of Python 3. *)
Class Python : Type := { minor : nat }.

Module Summary.

(** A CSV row after [float(row['delay_ms'])] and [float(row['fps'])]. *)
Record csv_row : Type := { row_delay_ms : Q; row_fps : Q }.

(** [statistics.mean] *)
Definition mean (data : list Q) : result Q :=
  match data with
  | [] => Raise StatisticsError
  | _ => Ok (Numeric.truediv (Numeric.sum data) (inject_Z (Z.of_nat (length data))))
  end.

Fixpoint insert_sorted (x : Q) (l : list Q) : list Q :=
  match l with
  | [] => [x]
  | y :: rest => if Numeric.Qlt_bool y x then y :: insert_sorted x rest else x :: l
  end.

(** [sorted(data)] *)
Definition sorted (data : list Q) : list Q := fold_right insert_sorted [] data.

(** One cut point of [statistics.quantiles(data, n=n)], default method
    ["exclusive"]; [data] is sorted and [ld] is its length.  The
    interpolation is exact here and rounded in Python; no statement below
    speaks of its value. *)
Definition cut_point (data : list Q) (ld n i : nat) : Q :=
  let m := (ld + 1)%nat in
  let j := (i * m / n)%nat in
  let j := if (j <? 1)%nat then 1%nat
           else if (ld - 1 <? j)%nat then (ld - 1)%nat else j in
  let delta := (Z.of_nat (i * m) - Z.of_nat (j * n))%Z in
  Numeric.truediv
    (nth (j - 1) data 0%Q * inject_Z (Z.of_nat n - delta)
     + nth j data 0%Q * inject_Z delta)%Q
    (inject_Z (Z.of_nat n)).

(** [statistics.quantiles(data, n=n)].  Up to Python 3.12 fewer than two
    data points raise; from 3.13 on a single data point is returned [n - 1]
    times and only the empty input raises. *)
Definition quantiles `{py : Python} (data : list Q) (n : nat) : result (list Q) :=
  if (n <? 1)%nat then Raise StatisticsError
  else
    let data := sorted data in
    let ld := length data in
    if (ld <? 2)%nat then
      if (ld =? 1)%nat && (13 <=? minor)%nat then Ok (concat (repeat data (n - 1)))
      else Raise StatisticsError
    else Ok (map (cut_point data ld n) (seq 1 (n - 1))).

Record metrics : Type := {
  avg_latency : Q;
  avg_fps : Q;
  p95_latency : Q;
  p99_latency : Q
}.

(** [analyze_and_print_metrics], on the rows of the file. *)
Definition analyze_and_print_metrics `{py : Python} (rows : list csv_row)
  : result metrics :=
  let delay_ms := map row_delay_ms rows in
  let fps := map row_fps rows in
  avg_latency <- mean delay_ms ;;
  avg_fps <- mean fps ;;
  quantiles <- quantiles delay_ms 100 ;;
  Ok {| avg_latency := avg_latency;
        avg_fps := avg_fps;
        p95_latency := nth 94 quantiles 0%Q;
        p99_latency := nth 98 quantiles 0%Q |}.

End Summary.

(** ** Concrete collaborators, used to run the model on examples *)

Module Fixture.
Import Session.

(** A toy image format: [height] zero bytes, a byte [x01], [width] zero
    bytes.  It forgets the pixels and keeps the size. *)
Fixpoint parse_header (bs : list byte) (h : nat) : option frame :=
  match bs with
  | [] => None
  | x00 :: rest => parse_header rest (S h)
  | x01 :: rest => Some {| height := h; width := length rest; pixels := [] |}
  | _ => None
  end.

Definition toy_cv : OpenCV :=
  {| resample := fun _ _ _ => [];
     imencode := fun f => repeat x00 (height f) ++ x01 :: repeat x00 (width f);
     imdecode := fun bs =>
       match bs with
       | [] => Raise CvError
       | _ => Ok (parse_header bs 0)
       end;
     imdecode_empty := eq_refl |}.

(** An engine that always finds the same two candidates, one of them above
    the threshold. *)
Definition two_rows : NumPy.ndarray :=
  {| NumPy.shape := [1; 2; 6]%nat;
     NumPy.data := map Numeric.Finite
                     [ 10; 20; 30; 40; 9 # 10; 3;
                       1; 2; 3; 4; 3 # 10; 0 ]%Q |}.



Definition nan_score : NumPy.ndarray :=
  {| NumPy.shape := [1; 6]%nat;
     NumPy.data := map Numeric.Finite [1; 2; 3; 4]%Q
                   ++ [Numeric.NaN; Numeric.Finite 0] |}.

Definition toy_engine : Engine :=
  {| session_run := fun _ => two_rows;
     CLASS_NAMES := {[ 0%Z := "person" ]} |}.

Definition small_frame : frame := {| height := 2; width := 3; pixels := [] |}.

Definition no_detections : Server.reply := Server.Detections [].

(** A reachable server, a readable video of [n] frames, and round trips
    that take 25 ms each. *)
Definition steady (n : nat) : world :=
  {| cap_isOpened := true;
     video := repeat small_frame n;
     mkdir_ok := true;
     writer_isOpened := true;
     connect := Connected;
     exchanges := fun idx =>
       Reply (inject_Z (Z.of_nat idx)) (inject_Z (Z.of_nat idx) + (25 # 1000))
             no_detections |}.

(** The same, but the connection closes while frame [k] is in flight. *)
Definition drops_at (k n : nat) : world :=
  {| cap_isOpened := true;
     video := repeat small_frame n;
     mkdir_ok := true;
     writer_isOpened := true;
     connect := Connected;
     exchanges := fun idx =>
       if (idx =? k)%nat then RecvRaises ConnectionClosed
       else exchanges (steady n) idx |}.

Definition refused (n : nat) : world :=
  {| cap_isOpened := true;
     video := repeat small_frame n;
     mkdir_ok := true;
     writer_isOpened := true;
     connect := ConnectRaises ConnectionRefusedError;
     exchanges := exchanges (steady n) |}.

Definition unreadable : world :=
  {| cap_isOpened := false;
     video := [];
     mkdir_ok := true;
     writer_isOpened := true;
     connect := Connected;
     exchanges := exchanges (steady 0) |}.

(** The video opens, the output video does not. *)
Definition unwritable (n : nat) : world :=
  {| cap_isOpened := true;
     video := repeat small_frame n;
     mkdir_ok := true;
     writer_isOpened := false;
     connect := Connected;
     exchanges := exchanges (steady n) |}.

(** The directory of the output video cannot be created. *)
Definition no_directory : world :=
  {| cap_isOpened := true;
     video := [small_frame];
     mkdir_ok := false;
     writer_isOpened := false;
     connect := Connected;
     exchanges := exchanges (steady 1) |}.

(** Both clock readings of the only round trip are equal. *)
Definition instant : world :=
  {| cap_isOpened := true;
     video := [small_frame];
     mkdir_ok := true;
     writer_isOpened := true;
     connect := Connected;
     exchanges := fun _ => Reply 5 5 no_detections |}.

Definition benchmark_only (n : nat) : Harness.args :=
  {| Harness.video_out := None; Harness.clients := n |}.

Definition with_video (n : nat) : Harness.args :=
  {| Harness.video_out := Some "out.mp4"; Harness.clients := n |}.

Definition session_of (r : result session) : session :=
  match r with Ok s => s | Raise _ => empty end.

(** Harness sessions in these worlds, computed once. *)
Definition steady_session : session :=
  Eval vm_compute in
    session_of (Harness.stream_video (cv := toy_cv) (benchmark_only 1) 0 (steady 2)).

Definition dropped_session : session :=
  Eval vm_compute in
    session_of (Harness.stream_video (cv := toy_cv) (benchmark_only 1) 0 (drops_at 2 5)).

(** Two clients; the connection of client 0 closes during its third
    frame. *)
Definition one_drops (i : nat) : world :=
  if (i =? 0)%nat then drops_at 2 5 else steady 5.

Definition first_message : list byte :=
  Eval vm_compute in encode_frame (cv := toy_cv) small_frame.

Definition first_record : Bench.record :=
  Eval vm_compute in Bench.make_record (Some 0%nat) 0 0 (0 + (25 # 1000)).

End Fixture.

(** ** The benchmark file ([save_benchmark], and its reader in
    [results/summary.py])

    A cell holds the number that [str] writes and [float] reads back; the
    text of the number is not modelled.  Opening the file is not modelled
    either. *)

Module Csv.

Inductive cell : Type :=
| Int (n : nat)
| Float (q : Q)
| Blank.

(** A row dictionary, in insertion order. *)
Abbreviation dict := (list (string * cell)).

(** The dictionary [bench.append] was given. *)
Definition dict_of (r : Bench.record) : dict :=
  match Bench.client_id r with
  | Some c => [("client_id", Int c)]
  | None => []
  end
  ++ [ ("frame", Int (Bench.frame_no r));
       ("delay_ms", Float (Bench.delay_ms r));
       ("fps", Float (Bench.fps r)) ].

Fixpoint get (key : string) (d : dict) : option cell :=
  match d with
  | [] => None
  | (k, v) :: rest => if String.eqb k key then Some v else get key rest
  end.

(** [csv.DictWriter(f, fieldnames).writerow(d)]: a key that is not a field
    name raises [ValueError]; a field the dictionary lacks is written
    empty. *)
Definition writerow (fieldnames : list string) (d : dict) : result (list cell) :=
  if forallb (fun kv => existsb (String.eqb (fst kv)) fieldnames) d
  then Ok (map (fun f => default Blank (get f d)) fieldnames)
  else Raise ValueError.

Fixpoint writerows (fieldnames : list string) (ds : list dict)
  : result (list (list cell)) :=
  match ds with
  | [] => Ok []
  | d :: rest =>
      row <- writerow fieldnames d ;;
      rows <- writerows fieldnames rest ;;
      Ok (row :: rows)
  end.

(** The written file: [writeheader()] then [writerows(records)]. *)
Record file : Type := { header : list string; rows : list (list cell) }.

Definition save_benchmark (fieldnames : list string) (records : list Bench.record)
  : result file :=
  rows <- writerows fieldnames (map dict_of records) ;;
  Ok {| header := fieldnames; rows := rows |}.

(** [save_benchmark] of [client.py] *)
Definition client_save_benchmark : list Bench.record -> result file :=
  save_benchmark ["frame"; "delay_ms"; "fps"].

(** [save_benchmark] of [utils/test.py] *)
Definition harness_save_benchmark : list Bench.record -> result file :=
  save_benchmark ["client_id"; "frame"; "delay_ms"; "fps"].

(** [row[key]] of a [csv.DictReader] row: the cell under the header [key].
    Without such a column the lookup raises [KeyError]; a row shorter than
    the header yields [None], on which [float] raises.  Both are reported
    as [OtherError]. *)
Fixpoint column (hdr : list string) (row : list cell) (key : string)
  : result cell :=
  match hdr, row with
  | h :: hdr', c :: row' =>
      if String.eqb h key then Ok c else column hdr' row' key
  | _, _ => Raise OtherError
  end.

(** [float(x)] of a cell *)
Definition to_float (c : cell) : result Q :=
  match c with
  | Int n => Ok (inject_Z (Z.of_nat n))
  | Float q => Ok q
  | Blank => Raise ValueError
  end.

(** The reading loop of [analyze_and_print_metrics]. *)
Fixpoint read_rows (hdr : list string) (rs : list (list cell))
  : result (list Summary.csv_row) :=
  match rs with
  | [] => Ok []
  | row :: rest =>
      d <- column hdr row "delay_ms" ;;
      d <- to_float d ;;
      f <- column hdr row "fps" ;;
      f <- to_float f ;;
      more <- read_rows hdr rest ;;
      Ok ({| Summary.row_delay_ms := d; Summary.row_fps := f |} :: more)
  end.

(** [analyze_and_print_metrics(file_path)] on a written file. *)
Definition analyze_file `{py : Python} (f : file) : result Summary.metrics :=
  rows <- read_rows (header f) (rows f) ;;
  Summary.analyze_and_print_metrics rows.

(** The two columns the analysis reads, for a record. *)
Definition csv_row_of (r : Bench.record) : Summary.csv_row :=
  {| Summary.row_delay_ms := Bench.delay_ms r; Summary.row_fps := Bench.fps r |}.

(** The cells of a record's row in the file of [client.py] and in that of
    the harness. *)
Definition client_row (r : Bench.record) : list cell :=
  [Int (Bench.frame_no r); Float (Bench.delay_ms r); Float (Bench.fps r)].

Definition harness_row (r : Bench.record) : list cell :=
  match Bench.client_id r with Some c => Int c | None => Blank end :: client_row r.

End Csv.

(** ** The output video of a harness session ([utils/test.py], lines 94-101) *)

Module Paths.

(** A path whose final component is [stem + suffix]. *)
Record path : Type := { parent : string; stem : string; suffix : string }.

(** [str(p)] *)
Definition str (p : path) : string := parent p +:+ "/" +:+ stem p +:+ suffix p.

(** [str(p.with_name(name))] *)
Definition with_name (p : path) (name : string) : string :=
  parent p +:+ "/" +:+ name.

Definition client_video_out (clients : nat) (out_path : path) (client_id : nat)
  : string :=
  if (1 <? clients)%nat
  then with_name out_path (stem out_path +:+ "_" +:+ pretty client_id +:+ suffix out_path)
  else str out_path.

End Paths.

(** ** Vocabulary for the further properties *)

Module Props.

(** What one row contributes: nothing when it has fewer than six entries
    or a score below the threshold, else the detection built from its first
    six entries, or the exception raised while building it. *)
Definition detections_of_row (names : gmap Z string) (scale_x scale_y : Q)
    (row : list Numeric.float) : result (list Server.detection) :=
  match row with
  | x1 :: y1 :: x2 :: y2 :: score :: label :: _ =>
      if Numeric.lt_f score Server.CONF_THRESHOLD then Ok []
      else
        d <- Server.make_detection names x1 y1 x2 y2 score label scale_x scale_y ;;
        Ok [d]
  | _ => Ok []
  end.

(** A finite number between the least and the greatest C [int]. *)
Definition in_int_range (x : Numeric.float) : Prop :=
  exists q : Q,
    x = Numeric.Finite q /\
    (inject_Z (- 2 ^ 31) <= q /\ q <= inject_Z (2 ^ 31 - 1))%Q.

(** An engine that keeps to the documented output shapes and whose numbers
    are finite and fit a C [int]. *)
Class TameEngine `{eng : Engine} : Prop :=
  engine_tame :
    forall inp,
      Server.documented (Some (session_run inp)) /\
      Forall in_int_range (NumPy.data (session_run inp)).

(** The server of this repository is at the other end and its replies
    arrive: the reply to frame [idx] is the [idx]-th reply of [ws_stream] to
    the messages sent for the frames of the video. *)
Definition served `{cv : OpenCV} `{eng : Engine} (w : Session.world) : Prop :=
  forall idx,
    (idx < length (Session.video w))%nat ->
    exists t0 t1 msg,
      Session.exchanges w idx = Session.Reply t0 t1 msg /\
      fst (Server.ws_stream (map Session.encode_frame (Session.video w))) !! idx
      = Some msg.

(** Every reply of the world can be drawn. *)
Definition drawable (w : Session.world) : Prop :=
  forall idx t0 t1 msg,
    Session.exchanges w idx = Session.Reply t0 t1 msg ->
    is_ok (Session.draw_detections (Session.detections_of msg)) = true.

(** A box that [draw_detections] can draw: four coordinates, each in the
    range of a C [int]. *)
Definition drawable_box (b : list Z) : Prop :=
  exists x1 y1 x2 y2,
    b = [x1; y1; x2; y2] /\
    Session.fits_int x1 && Session.fits_int y1
    && Session.fits_int x2 && Session.fits_int y2 = true.

(** A [PutText] below the top margin. *)
Definition text_in_frame (op : Session.draw_op) : Prop :=
  match op with
  | Session.PutText _ _ _ y => (12 <= y)%Z
  | Session.Rectangle _ _ _ _ => True
  end.

End Props.

(** ** More concrete worlds *)

Module Sample.
Import Session.

(** The harness session of [Fixture.steady 2] with an output video. *)
Definition steady_video_session : session :=
  Eval vm_compute in
    Fixture.session_of
      (Harness.stream_video (cv := Fixture.toy_cv) (Fixture.with_video 1) 0
                            (Fixture.steady 2)).

(** What the toy server replies to the toy frame. *)
Definition toy_reply : Server.reply :=
  Eval vm_compute in
    match fst (Server.ws_stream (cv := Fixture.toy_cv) (eng := Fixture.toy_engine)
                 [Fixture.first_message]) with
    | r :: _ => r
    | [] => Server.Detections []
    end.

(** Two frames streamed to the toy server. *)
Definition served_world : world :=
  {| cap_isOpened := true;
     video := [Fixture.small_frame; Fixture.small_frame];
     mkdir_ok := true;
     writer_isOpened := true;
     connect := Connected;
     exchanges := fun _ => Reply 0 1 toy_reply |}.

(** The run of two clients of [Fixture.one_drops], and two neighbours in
    its merged benchmark: the last record of client 0 and the first of
    client 1. *)
Definition empty_report : Harness.report :=
  {| Harness.results := []; Harness.all_benchmarks := [];
     Harness.saved := None; Harness.summary := None |}.

Definition merged_report : Harness.report :=
  Eval vm_compute in
    match Harness.main (cv := Fixture.toy_cv) (Fixture.benchmark_only 2)
                       Fixture.one_drops with
    | Ok rep => rep
    | Raise _ => empty_report
    end.

Definition last_of_client_0 : Bench.record :=
  Eval vm_compute in Bench.make_record (Some 0%nat) 1 1 (1 + (25 # 1000)).

Definition first_of_client_1 : Bench.record :=
  Eval vm_compute in Bench.make_record (Some 1%nat) 0 0 (0 + (25 # 1000)).

(** The file the harness saves for [merged_report], and what [summary.py]
    makes of it. *)
Definition merged_file : Csv.file :=
  Eval vm_compute in
    match Csv.harness_save_benchmark (Harness.all_benchmarks merged_report) with
    | Ok f => f
    | Raise _ => {| Csv.header := []; Csv.rows := [] |}
    end.

Definition python_3_12 : Python := {| minor := 12 |}.

(** The detections of the toy server's reply. *)
Definition toy_detections : list Server.detection :=
  Eval vm_compute in detections_of toy_reply.

End Sample.

(** * Properties *)

(** ** Rounding *)

Section NumericFacts.
Import Numeric.
Local Open Scope Q_scope.

Lemma round_half_even_near (q : Q) :
  inject_Z (round_half_even q) - (1 # 2) <= q /\
  q <= inject_Z (round_half_even q) + (1 # 2).
Proof.
  unfold round_half_even.
  pose proof (Qfloor_le q) as Hlo.
  pose proof (Qlt_floor q) as Hhi.
  rewrite inject_Z_plus in Hhi. change (inject_Z 1) with 1 in Hhi.
  destruct (Qcompare_spec (q - inject_Z (Qfloor q)) (1 # 2)) as [He|Hl|Hg].
  - destruct (Z.even (Qfloor q)).
    + split; lra.
    + rewrite inject_Z_plus. change (inject_Z 1) with 1. split; lra.
  - split; lra.
  - rewrite inject_Z_plus. change (inject_Z 1) with 1. split; lra.
Qed.

Lemma round_half_even_floor (q : Q) : (Qfloor q <= round_half_even q)%Z.
Proof.
  unfold round_half_even.
  destruct (Qcompare _ _); [destruct (Z.even _)| |]; lia.
Qed.

Lemma pow10_scale (n : nat) (x : Q) :
  x == (x * inject_Z (Z.pos (pow10 n))) * (1 # pow10 n).
Proof.
  rewrite <- Qmult_assoc.
  assert (inject_Z (Z.pos (pow10 n)) * (1 # pow10 n) == 1) as ->.
  { unfold Qeq, inject_Z. simpl. lia. }
  ring.
Qed.

(** [round] moves its argument by at most half a unit of the last kept
    decimal. *)
Lemma round_error (x : Q) (n : nat) :
  round x n - (1 # (2 * pow10 n)) <= x /\ x <= round x n + (1 # (2 * pow10 n)).
Proof.
  unfold round.
  set (p := pow10 n).
  set (y := x * inject_Z (Z.pos p)).
  destruct (round_half_even_near y) as [Hlo Hhi].
  assert (Hx : x == y * (1 # p)) by apply pow10_scale.
  assert (Hz : round_half_even y # p == inject_Z (round_half_even y) * (1 # p)).
  { unfold Qeq, inject_Z. simpl. lia. }
  assert (Hh : 1 # (2 * p) == (1 # 2) * (1 # p)) by reflexivity.
  assert (Hc : 0 <= 1 # p) by (unfold Qle; simpl; lia).
  rewrite Hz, Hh.
  split.
  - rewrite Hx at 1.
    assert (E : inject_Z (round_half_even y) * (1 # p) - (1 # 2) * (1 # p)
                == (inject_Z (round_half_even y) - (1 # 2)) * (1 # p)) by ring.
    rewrite E.
    apply Qmult_le_compat_r; assumption.
  - rewrite Hx at 1.
    assert (E : inject_Z (round_half_even y) * (1 # p) + (1 # 2) * (1 # p)
                == (inject_Z (round_half_even y) + (1 # 2)) * (1 # p)) by ring.
    rewrite E.
    apply Qmult_le_compat_r; assumption.
Qed.

(** Rounding does not go below a value of the grid that the argument
    reaches. *)
Lemma round_ge_grid (x : Q) (n : nat) (z : Z) :
  z # pow10 n <= x -> z # pow10 n <= round x n.
Proof.
  intros H. unfold round.
  set (p := pow10 n) in *.
  assert (Hz : (z <= Qfloor (x * inject_Z (Z.pos p)))%Z).
  { rewrite <- (Qfloor_Z z). apply Qfloor_resp_le.
    assert (E : inject_Z z == (z # p) * inject_Z (Z.pos p)).
    { unfold Qeq, inject_Z. simpl. lia. }
    rewrite E.
    apply Qmult_le_compat_r; [assumption|]. unfold Qle; simpl; lia. }
  pose proof (round_half_even_floor (x * inject_Z (Z.pos p))) as Hf.
  unfold Qle. simpl. nia.
Qed.

Lemma round_nonneg (x : Q) (n : nat) : 0 <= x -> 0 <= round x n.
Proof.
  intros H.
  assert (0 # pow10 n <= round x n).
  { apply round_ge_grid. unfold Qle in *. simpl in *. lia. }
  unfold Qle in *. simpl in *. lia.
Qed.

End NumericFacts.

(** ** The session loop *)

Section SessionFacts.
Context `{cv : OpenCV}.
Import Session.

Lemma loop_spec annotate cid ex frames : forall idx st st' r,
  loop annotate cid ex frames idx st = (st', r) ->
  exists (k n : nat) (recs : list Bench.record),
    bench st' = bench st ++ recs /\
    map Some recs = map (fun j => record_of cid j (ex j)) (seq idx k) /\
    (forall j, (j < k)%nat -> completed annotate (ex (idx + j)%nat) = true) /\
    sent st' = sent st ++ map encode_frame (take n frames) /\
    (k <= n <= k + 1)%nat /\ (n <= length frames)%nat /\
    log st' = log st /\
    match r with
    | None => k = length frames
    | Some _ => (k < length frames)%nat /\
                completed annotate (ex (idx + k)%nat) = false
    end.
Proof.
  induction frames as [|f rest IH]; intros idx st st' r Hloop; simpl in Hloop.
  - inversion Hloop; subst. exists 0%nat, 0%nat, [].
    rewrite !app_nil_r. repeat split; auto; intros; lia.
  - destruct (ex idx) as [t0 t1 msg|e|e] eqn:Hex.
    + destruct annotate.
      * destruct (draw_detections (detections_of msg)) as [ops|e] eqn:Hdraw;
          simpl in Hloop.
        -- apply IH in Hloop.
           destruct Hloop as (k & n & recs & Hb & Hr & Hc & Hs & Hkn & Hn & Hl & Hend).
           simpl in Hb, Hs, Hl.
           exists (S k), (S n), (Bench.make_record cid idx t0 t1 :: recs).
           repeat split.
           ++ rewrite Hb, <- app_assoc. reflexivity.
           ++ simpl. rewrite Hex. simpl. f_equal.
              rewrite Hr, Nat.add_1_r. reflexivity.
           ++ intros [|j] Hj.
              ** rewrite Nat.add_0_r, Hex. simpl. rewrite Hdraw. reflexivity.
              ** replace (idx + S j)%nat with (idx + 1 + j)%nat by lia.
                 apply Hc. lia.
           ++ rewrite Hs, <- app_assoc. reflexivity.
           ++ lia.
           ++ lia.
           ++ simpl. lia.
           ++ assumption.
           ++ destruct r.
              ** replace (idx + S k)%nat with (idx + 1 + k)%nat by lia.
                 simpl. destruct Hend. split; [lia|assumption].
              ** simpl. lia.
        -- inversion Hloop; subst. exists 0%nat, 1%nat, [].
           simpl. rewrite !app_nil_r, Nat.add_0_r, Hex. simpl. rewrite Hdraw.
           repeat split; auto; try (intros; lia).
      * simpl in Hloop. apply IH in Hloop.
        destruct Hloop as (k & n & recs & Hb & Hr & Hc & Hs & Hkn & Hn & Hl & Hend).
        simpl in Hb, Hs, Hl.
        exists (S k), (S n), (Bench.make_record cid idx t0 t1 :: recs).
        repeat split.
        -- rewrite Hb, <- app_assoc. reflexivity.
        -- simpl. rewrite Hex. simpl. f_equal.
           rewrite Hr, Nat.add_1_r. reflexivity.
        -- intros [|j] Hj.
           ++ rewrite Nat.add_0_r, Hex. reflexivity.
           ++ replace (idx + S j)%nat with (idx + 1 + j)%nat by lia.
              apply Hc. lia.
        -- rewrite Hs, <- app_assoc. reflexivity.
        -- lia.
        -- lia.
        -- simpl. lia.
        -- rewrite Hl. reflexivity.
        -- destruct r.
           ++ replace (idx + S k)%nat with (idx + 1 + k)%nat by lia.
              simpl. destruct Hend. split; [lia|assumption].
           ++ simpl. lia.
    + inversion Hloop; subst. exists 0%nat, 0%nat, [].
      simpl. rewrite !app_nil_r, Nat.add_0_r, Hex.
      repeat split; auto; try (intros; lia).
    + inversion Hloop; subst. exists 0%nat, 1%nat, [].
      simpl. rewrite !app_nil_r, Nat.add_0_r, Hex.
      repeat split; auto; try (intros; lia).
Qed.

End SessionFacts.

(** ** Records *)

Section RecordFacts.
Import Numeric Bench.
Local Open Scope Q_scope.

Lemma Qlt_bool_true (a b : Q) : Qlt_bool a b = true <-> a < b.
Proof.
  unfold Qlt_bool. destruct (Qcompare_spec a b) as [E|L|G]; split; intros X;
    try discriminate; try assumption; try reflexivity; exfalso.
  - rewrite E in X. revert X. apply Qlt_irrefl.
  - apply (Qlt_irrefl a). apply Qlt_trans with b; assumption.
Qed.

Lemma Qlt_bool_false (a b : Q) : Qlt_bool a b = false <-> b <= a.
Proof.
  split; intros X.
  - apply Qnot_lt_le. intros L. apply Qlt_bool_true in L. congruence.
  - destruct (Qlt_bool a b) eqn:E; [|reflexivity].
    apply Qlt_bool_true in E. exfalso. apply (Qlt_not_le _ _ E X).
Qed.

Lemma measure_delay_nonneg (t0 t1 : Q) : t0 <= t1 -> 0 <= measure_delay t0 t1.
Proof. unfold measure_delay. intros. lra. Qed.

Lemma make_record_faithful cid idx (t0 t1 : Q) :
  t0 <= t1 -> faithful (make_record cid idx t0 t1) (measure_delay t0 t1).
Proof.
  intros Hmono. pose proof (measure_delay_nonneg _ _ Hmono) as Hd.
  set (d := measure_delay t0 t1) in *.
  unfold faithful, make_record. fold d. simpl. repeat split.
  - assumption.
  - apply round_nonneg. assumption.
  - apply (round_error d 3).
  - apply (round_error d 3).
  - intros Hz. unfold inst_fps.
    assert (Qlt_bool 0 d = false) as ->.
    { apply Qlt_bool_false. rewrite Hz. apply Qle_refl. }
    reflexivity.
  - unfold inst_fps. apply Qlt_bool_true in H. rewrite H.
    unfold truediv. rewrite <- (Qred_correct (1000 / d)) at 2.
    apply (round_error (Qred (1000 / d)) 3).
  - unfold inst_fps. apply Qlt_bool_true in H. rewrite H.
    unfold truediv. rewrite <- (Qred_correct (1000 / d)) at 1.
    apply (round_error (Qred (1000 / d)) 3).
Qed.
End RecordFacts.

(** ** Sessions *)

Section LeavesFacts.
Context `{cv : OpenCV}.
Import Session.

Lemma trace_empty annotate cid w : trace annotate cid w empty 0.
Proof.
  repeat split; simpl; try lia. exists 0%nat. rewrite take_0. split; [reflexivity|lia].
Qed.

Lemma trace_say annotate cid w s k m :
  trace annotate cid w s k -> trace annotate cid w (say m s) k.
Proof. intros T. exact T. Qed.

Lemma loop_trace annotate cid w st r :
  loop annotate cid (exchanges w) (video w) 0 empty = (st, r) ->
  exists k, trace annotate cid w st k /\ log st = [] /\
    match r with
    | None => k = length (video w)
    | Some _ => (k < length (video w))%nat /\
                completed annotate (exchanges w k) = false
    end.
Proof.
  intros Hloop. apply loop_spec in Hloop.
  destruct Hloop as (k & n & recs & Hb & Hr & Hc & Hs & Hkn & Hn & Hl & Hend).
  simpl in *. exists k. repeat split.
  - rewrite Hb. exact Hr.
  - destruct r; [destruct Hend|]; lia.
  - exact Hc.
  - exists n. split; [exact Hs | lia].
  - exact Hl.
  - exact Hend.
Qed.

(** The ways [utils/test.py]'s [stream_video] returns. *)
Lemma harness_stream_video_inv a cid w s :
  Harness.stream_video a cid w = Ok s ->
  (cap_isOpened w = false /\ s = empty) \/
  (cap_isOpened w = true /\ (Harness.annotates a = true -> mkdir_ok w = true) /\
   ((exists e, connect w = ConnectRaises e /\ s = say (ClientError cid e) empty) \/
    (connect w = Connected /\
     exists st r,
       loop (Harness.annotates a) (Some cid) (exchanges w) (video w) 0 empty = (st, r) /\
       s = match r with Some e => say (ClientError cid e) st | None => st end))).
Proof.
  unfold Harness.stream_video.
  destruct (cap_isOpened w); simpl; [|intros [= <-]; left; auto].
  intros Hs. right. split; [reflexivity|].
  destruct (Harness.annotates a); simpl in Hs.
  - destruct (mkdir_ok w); simpl in Hs; [|discriminate].
    split; [reflexivity|].
    destruct (connect w) as [|e].
    + right. split; [reflexivity|].
      destruct (loop true (Some cid) (exchanges w) (video w) 0 empty) as [st [e|]];
        injection Hs as <-; eauto.
    + left. injection Hs as <-. eauto.
  - split; [discriminate|].
    destruct (connect w) as [|e].
    + right. split; [reflexivity|].
      destruct (loop false (Some cid) (exchanges w) (video w) 0 empty) as [st [e|]];
        injection Hs as <-; eauto.
    + left. injection Hs as <-. eauto.
Qed.

Lemma client_on_exception_bench e st :
  bench (snd (Client.on_exception e st)) = bench st /\
  sent (snd (Client.on_exception e st)) = sent st.
Proof. destruct e; simpl; auto. Qed.

Lemma leaves_trace w s :
  leaves w s -> exists annotate cid k, trace annotate cid w s k.
Proof.
  intros [a cid s' Hs|].
  - apply harness_stream_video_inv in Hs.
    destruct Hs as [[_ ->]|(_ & _ & [(e & _ & ->)|(_ & st & r & Hloop & ->)])].
    + exists false, None, 0%nat. apply trace_empty.
    + exists false, None, 0%nat. apply trace_say, trace_empty.
    + apply loop_trace in Hloop. destruct Hloop as (k & T & _).
      exists (Harness.annotates a), (Some cid), k.
      destruct r; [apply trace_say|]; exact T.
  - unfold Client.stream_video.
    destruct (cap_isOpened w); simpl;
      [|exists false, None, 0%nat; apply trace_empty].
    destruct (writer_isOpened w); simpl;
      [|exists false, None, 0%nat; apply trace_empty].
    destruct (connect w) as [|e].
    + destruct (loop true None (exchanges w) (video w) 0 empty) as [st r] eqn:Hloop.
      apply loop_trace in Hloop. destruct Hloop as (k & T & _).
      exists true, None, k.
      destruct r as [e|]; [|exact T].
      destruct T as (Tb & Tk & Tc & n & Ts & Tn).
      destruct (client_on_exception_bench e st) as [Eb Es].
      repeat split; try assumption.
      * rewrite Eb. exact Tb.
      * exists n. rewrite Es. auto.
    + exists false, None, 0%nat.
      destruct (client_on_exception_bench e empty) as [Eb Es].
      repeat split; simpl; try lia.
      * rewrite Eb. reflexivity.
      * exists 0%nat. rewrite Es, take_0. split; [reflexivity|lia].
Qed.

(** Reading the [i]-th record off a trace. *)
Lemma trace_lookup annotate cid w s k i (r : Bench.record) :
  trace annotate cid w s k -> bench s !! i = Some r ->
  (i < k)%nat /\ record_of cid i (exchanges w i) = Some r.
Proof.
  intros (Tb & _) Hi.
  assert (Hm : map Some (bench s) !! i = Some (Some r)).
  { change (map Some (bench s)) with (Some <$> bench s).
    rewrite list_lookup_fmap, Hi. reflexivity. }
  rewrite Tb in Hm.
  change (map ?f ?l) with (f <$> l) in Hm.
  rewrite list_lookup_fmap in Hm.
  destruct (seq 0 k !! i) as [j|] eqn:Hj; [|discriminate].
  apply lookup_seq in Hj. destruct Hj as [-> Hlt]. simpl in Hm.
  split; [exact Hlt|]. congruence.
Qed.

Lemma trace_length annotate cid w s k :
  trace annotate cid w s k -> length (bench s) = k.
Proof.
  intros (Tb & _).
  apply (f_equal (@length _)) in Tb.
  rewrite !length_map, length_seq in Tb. exact Tb.
Qed.

End LeavesFacts.

(** ** Round-trip figures *)

Section Figures.
Import Session.
Local Open Scope Q_scope.

(** The clock of [Fixture.instant] read the same value twice: the record
    carries a delay of zero, so recorded delays are not always strictly
    positive. *)
Lemma zero_delay_is_recorded :
  ~ (forall r : Bench.record,
       r ∈ bench (snd (Client.stream_video (cv := Fixture.toy_cv) Fixture.instant)) ->
       0 < Bench.delay_ms r).
Proof.
  intros Hpos.
  specialize (Hpos (Bench.make_record None 0 5 5)).
  assert (Hin : Bench.make_record None 0 5 5
                ∈ bench (snd (Client.stream_video (cv := Fixture.toy_cv) Fixture.instant))).
  { vm_compute. left. }
  apply Hpos in Hin. vm_compute in Hin. discriminate.
Qed.

(** A measured delay below half a microsecond is recorded as zero while
    the fps column is not: the fps column follows the measured delay, not
    the recorded one. *)
Example tiny_delay_rounds_to_zero :
  let r := Bench.make_record None 0 0 (4 # 10000000) in
  Bench.delay_ms r == 0 /\ Bench.fps r == 2500000.
Proof. vm_compute. split; reflexivity. Qed.

(** C1 (as amended).  Every record of a client session belongs to a round
    trip that returned a reply, carries that frame's one-based index, and,
    the clock being monotonic, carries faithful figures: a delay that is
    non-negative and within 0.0005 of the measured one, and an fps within
    0.0005 of 1000/delay, or zero when the measured delay is zero. *)
Theorem round_trip_figures `{cv : OpenCV} (w : world) (s : session)
    (r : Bench.record) :
  monotonic_clock w -> leaves w s -> r ∈ bench s ->
  exists idx t0 t1 msg,
    exchanges w idx = Reply t0 t1 msg /\
    Bench.frame_no r = (idx + 1)%nat /\
    Bench.faithful r (Bench.measure_delay t0 t1).
Proof.
  intros Hmono Hleaves Hin.
  destruct (leaves_trace _ _ Hleaves) as (annotate & cid & k & T).
  apply list_elem_of_lookup in Hin. destruct Hin as [i Hi].
  destruct (trace_lookup _ _ _ _ _ _ _ T Hi) as [_ Hrec].
  unfold record_of in Hrec.
  destruct (exchanges w i) as [t0 t1 msg| |] eqn:Hex; try discriminate.
  injection Hrec as <-.
  exists i, t0, t1, msg.
  split; [exact Hex|]. split; [reflexivity|].
  apply make_record_faithful. exact (Hmono _ _ _ _ Hex).
Qed.

Lemma steady_clock n : monotonic_clock (Fixture.steady n).
Proof.
  intros idx t0 t1 msg E. simpl in E. injection E as <- <- _. lra.
Qed.

Lemma round_trip_figures_witness :
  exists idx t0 t1 msg,
    exchanges (Fixture.steady 2) idx = Reply t0 t1 msg /\
    Bench.frame_no Fixture.first_record = (idx + 1)%nat /\
    Bench.faithful Fixture.first_record (Bench.measure_delay t0 t1).
Proof.
  apply (round_trip_figures (cv := Fixture.toy_cv)
           (Fixture.steady 2) Fixture.steady_session Fixture.first_record).
  - apply steady_clock.
  - apply (leaves_harness _ (Fixture.benchmark_only 1) 0). reflexivity.
  - left.
Defined.

End Figures.

(** ** Frame indices *)

Section FrameIndices.
Import Session.

Lemma record_of_frame_no cid j x r :
  record_of cid j x = Some r -> Bench.frame_no r = (j + 1)%nat.
Proof. destruct x; simpl; intros [= <-]; reflexivity. Qed.

Lemma trace_frame_numbers `{cv : OpenCV} annotate cid w s k :
  trace annotate cid w s k -> map Bench.frame_no (bench s) = seq 1 k.
Proof.
  intros T. apply list_eq. intros i.
  change (map ?f ?l) with (f <$> l). rewrite list_lookup_fmap.
  destruct (bench s !! i) as [r|] eqn:Hi; simpl.
  - destruct (trace_lookup _ _ _ _ _ _ _ T Hi) as [Hlt Hrec].
    apply record_of_frame_no in Hrec. rewrite Hrec.
    symmetry. rewrite lookup_seq. split; lia.
  - symmetry. apply lookup_ge_None. rewrite length_seq.
    apply lookup_ge_None in Hi. rewrite (trace_length _ _ _ _ _ T) in Hi. exact Hi.
Qed.

Lemma harness_stop `{cv : OpenCV} a cid w s :
  Harness.stream_video a cid w = Ok s ->
  cap_isOpened w = true -> connect w = Connected ->
  length (bench s) = length (video w) \/
  ((length (bench s) < length (video w))%nat /\
   completed (Harness.annotates a) (exchanges w (length (bench s))) = false).
Proof.
  intros Hs Hcap Hconn. apply harness_stream_video_inv in Hs.
  destruct Hs as [[Hc _]|(_ & _ & [(e & Hc & _)|(_ & st & r & Hloop & ->)])];
    try congruence.
  apply loop_trace in Hloop. destruct Hloop as (k & T & _ & Hend).
  assert (Hlen : length (bench (match r with
                                | Some e => say (ClientError cid e) st
                                | None => st
                                end)) = k).
  { destruct r; exact (trace_length _ _ _ _ _ T). }
  rewrite Hlen. destruct r; [right|left]; exact Hend.
Qed.

Lemma client_stop `{cv : OpenCV} w :
  cap_isOpened w = true -> writer_isOpened w = true -> connect w = Connected ->
  length (bench (snd (Client.stream_video w))) = length (video w) \/
  ((length (bench (snd (Client.stream_video w))) < length (video w))%nat /\
   completed true
     (exchanges w (length (bench (snd (Client.stream_video w))))) = false).
Proof.
  intros Hcap Hwr Hconn. unfold Client.stream_video. rewrite Hcap, Hwr, Hconn.
  cbn [negb].
  destruct (loop true None (exchanges w) (video w) 0 empty) as [st r] eqn:Hloop.
  apply loop_trace in Hloop. destruct Hloop as (k & T & _ & Hend).
  pose proof (trace_length _ _ _ _ _ T) as Hlen.
  destruct r as [e|].
  - destruct (client_on_exception_bench e st) as [-> _]. rewrite Hlen.
    right. exact Hend.
  - cbn [snd]. rewrite Hlen. left. exact Hend.
Qed.

(** C2.  The frame indices recorded by a session are 1, 2, ..., n in this
    order, so none is repeated or skipped; each record is the one of the
    round trip of its frame, which returned a reply; there are at most as
    many as the video has frames, and a round trip that ended in an error
    leaves no record for its frame nor for any later one.  There are no
    fewer either: once the video is open and the connection made, a
    session stops recording only at the end of the video or at the first
    round trip that did not complete. *)
Theorem frame_numbers_contiguous `{cv : OpenCV} (w : world) (s : session) :
  leaves w s ->
  (map Bench.frame_no (bench s) = seq 1 (length (bench s)) /\
   NoDup (map Bench.frame_no (bench s)) /\
   (length (bench s) <= length (video w))%nat /\
   (forall k e,
      exchanges w k = SendRaises e \/ exchanges w k = RecvRaises e ->
      (length (bench s) <= k)%nat) /\
   (forall j r,
      bench s !! j = Some r ->
      exists t0 t1 msg,
        exchanges w j = Reply t0 t1 msg /\
        r = Bench.make_record (Bench.client_id r) j t0 t1)) /\
  (forall a cid,
     Harness.stream_video a cid w = Ok s ->
     cap_isOpened w = true -> connect w = Connected ->
     length (bench s) = length (video w) \/
     ((length (bench s) < length (video w))%nat /\
      completed (Harness.annotates a) (exchanges w (length (bench s))) = false)) /\
  (s = snd (Client.stream_video w) ->
   cap_isOpened w = true -> writer_isOpened w = true -> connect w = Connected ->
   length (bench s) = length (video w) \/
   ((length (bench s) < length (video w))%nat /\
    completed true (exchanges w (length (bench s))) = false)).
Proof.
  intros Hleaves. split; [|split].
  - destruct (leaves_trace _ _ Hleaves) as (annotate & cid & n & T).
    pose proof (trace_frame_numbers _ _ _ _ _ T) as Hnum.
    pose proof (trace_length _ _ _ _ _ T) as Hlen.
    rewrite Hlen. split; [exact Hnum|]. split; [rewrite Hnum; apply NoDup_seq|].
    split; [destruct T as (_ & Hk & _); exact Hk|]. split.
    + intros k e Hfail.
      destruct (Nat.le_gt_cases n k) as [Hle|Hgt]; [exact Hle|exfalso].
      destruct T as (_ & _ & Hc & _). specialize (Hc k Hgt).
      destruct Hfail as [E|E]; rewrite E in Hc; discriminate.
    + intros j r Hj.
      destruct (trace_lookup _ _ _ _ _ _ _ T Hj) as [_ Hrec].
      destruct (exchanges w j) as [t0 t1 msg| |]; try discriminate.
      exists t0, t1, msg. split; [reflexivity|].
      simpl in Hrec. injection Hrec as <-. reflexivity.
  - intros a cid Hs. exact (harness_stop a cid w s Hs).
  - intros ->. apply client_stop.
Qed.

Lemma frame_numbers_contiguous_witness :
  (map Bench.frame_no (bench Fixture.dropped_session)
     = seq 1 (length (bench Fixture.dropped_session)) /\
   NoDup (map Bench.frame_no (bench Fixture.dropped_session)) /\
   (length (bench Fixture.dropped_session)
    <= length (video (Fixture.drops_at 2 5)))%nat /\
   (forall k e,
      exchanges (Fixture.drops_at 2 5) k = SendRaises e \/
      exchanges (Fixture.drops_at 2 5) k = RecvRaises e ->
      (length (bench Fixture.dropped_session) <= k)%nat) /\
   (forall j r,
      bench Fixture.dropped_session !! j = Some r ->
      exists t0 t1 msg,
        exchanges (Fixture.drops_at 2 5) j = Reply t0 t1 msg /\
        r = Bench.make_record (Bench.client_id r) j t0 t1)) /\
  (forall a cid,
     Harness.stream_video (cv := Fixture.toy_cv) a cid (Fixture.drops_at 2 5)
     = Ok Fixture.dropped_session ->
     cap_isOpened (Fixture.drops_at 2 5) = true ->
     connect (Fixture.drops_at 2 5) = Connected ->
     length (bench Fixture.dropped_session) = length (video (Fixture.drops_at 2 5)) \/
     ((length (bench Fixture.dropped_session)
       < length (video (Fixture.drops_at 2 5)))%nat /\
      completed (Harness.annotates a)
        (exchanges (Fixture.drops_at 2 5) (length (bench Fixture.dropped_session)))
      = false)) /\
  (Fixture.dropped_session
   = snd (Client.stream_video (cv := Fixture.toy_cv) (Fixture.drops_at 2 5)) ->
   cap_isOpened (Fixture.drops_at 2 5) = true ->
   writer_isOpened (Fixture.drops_at 2 5) = true ->
   connect (Fixture.drops_at 2 5) = Connected ->
   length (bench Fixture.dropped_session) = length (video (Fixture.drops_at 2 5)) \/
   ((length (bench Fixture.dropped_session)
     < length (video (Fixture.drops_at 2 5)))%nat /\
    completed true
      (exchanges (Fixture.drops_at 2 5) (length (bench Fixture.dropped_session)))
    = false)).
Proof.
  apply (frame_numbers_contiguous (cv := Fixture.toy_cv)).
  apply (leaves_harness _ (Fixture.benchmark_only 1) 0). reflexivity.
Defined.

(** The session of the witness recorded the two frames before the drop. *)
Example dropped_session_records :
  map Bench.frame_no (bench Fixture.dropped_session) = [1; 2]%nat.
Proof. reflexivity. Qed.

End FrameIndices.

(** ** The orchestrator *)

Section Orchestrator.
Context `{cv : OpenCV}.
Import Session.

(** How a harness session stopped, next to its trace. *)
Lemma harness_trace a cid w s :
  Harness.stream_video a cid w = Ok s ->
  exists k,
    trace (Harness.annotates a) (Some cid) w s k /\
    ((cap_isOpened w = false /\ k = 0%nat /\ s = empty) \/
     (cap_isOpened w = true /\
      exists e, connect w = ConnectRaises e /\ k = 0%nat /\
                s = say (ClientError cid e) empty) \/
     (cap_isOpened w = true /\ connect w = Connected /\
      ((k = length (video w) /\ log s = []) \/
       ((k < length (video w))%nat /\
        completed (Harness.annotates a) (exchanges w k) = false /\
        exists e, log s = [ClientError cid e])))).
Proof.
  intros Hs. apply harness_stream_video_inv in Hs.
  destruct Hs as [[Hcap ->]|(Hcap & _ & [(e & Hc & ->)|(Hc & st & r & Hloop & ->)])].
  - exists 0%nat. split; [apply trace_empty|]. left. auto.
  - exists 0%nat. split; [apply trace_say, trace_empty|]. right. left. eauto.
  - apply loop_trace in Hloop. destruct Hloop as (k & T & Hlog & Hend).
    exists k. destruct r as [e|].
    + split; [apply trace_say; exact T|]. right. right.
      split; [exact Hcap|]. split; [exact Hc|]. right.
      destruct Hend as [Hlt Hfail]. split; [exact Hlt|]. split; [exact Hfail|].
      exists e. simpl. rewrite Hlog. reflexivity.
    + split; [exact T|]. right. right. auto.
Qed.

Lemma trace_tagged annotate cid w s k (r : Bench.record) :
  trace annotate cid w s k -> r ∈ bench s -> Bench.client_id r = cid.
Proof.
  intros T Hin. apply list_elem_of_lookup in Hin. destruct Hin as [i Hi].
  destruct (trace_lookup _ _ _ _ _ _ _ T Hi) as [_ Hrec].
  destruct (exchanges w i); simpl in Hrec; try discriminate.
  injection Hrec as <-. reflexivity.
Qed.

Lemma harness_tagged a cid w s (r : Bench.record) :
  Harness.stream_video a cid w = Ok s -> r ∈ bench s ->
  Bench.client_id r = Some cid.
Proof.
  intros Hs Hin. destruct (harness_trace _ _ _ _ Hs) as (k & T & _).
  exact (trace_tagged _ _ _ _ _ _ T Hin).
Qed.

(** A session raises only when it cannot create the output directory. *)
Lemma harness_returns a cid w :
  (Harness.annotates a = true -> cap_isOpened w = true -> mkdir_ok w = true) ->
  exists s, Harness.stream_video a cid w = Ok s.
Proof.
  unfold Harness.stream_video. intros Hdir.
  destruct (cap_isOpened w); simpl; [|eauto].
  destruct (Harness.annotates a); simpl.
  - rewrite Hdir by reflexivity. simpl.
    destruct (connect w); [|eauto].
    destruct (loop _ _ _ _ _ _) as [st [e|]]; eauto.
  - destruct (connect w); [|eauto].
    destruct (loop _ _ _ _ _ _) as [st [e|]]; eauto.
Qed.

Lemma gather_inv a worlds ids ss :
  Harness.gather a worlds ids = Ok ss ->
  Forall2 (fun i s => Harness.stream_video a i (worlds i) = Ok s) ids ss.
Proof.
  revert ss. induction ids as [|i ids IH]; simpl; intros ss Hg.
  - injection Hg as <-. constructor.
  - destruct (Harness.stream_video a i (worlds i)) as [s|e] eqn:Hs;
      simpl in Hg; [|discriminate].
    destruct (Harness.gather a worlds ids) as [ss'|e]; simpl in Hg; [|discriminate].
    injection Hg as <-. constructor; auto.
Qed.

Lemma gather_returns a worlds ids :
  (forall i, i ∈ ids -> exists s, Harness.stream_video a i (worlds i) = Ok s) ->
  exists ss, Harness.gather a worlds ids = Ok ss.
Proof.
  induction ids as [|i ids IH]; simpl; intros Hall; [eauto|].
  destruct (Hall i) as [s ->]; [left|]. simpl.
  destruct IH as [ss ->]; [intros j Hj; apply Hall; right; exact Hj|].
  simpl. eauto.
Qed.

Lemma merge_concat (ss : list session) (acc : list Bench.record) :
  fold_left (fun acc s => acc ++ bench s) ss acc = acc ++ concat (map bench ss).
Proof.
  revert acc. induction ss as [|s ss IH]; intros acc; simpl.
  - rewrite app_nil_r. reflexivity.
  - rewrite IH, <- app_assoc. reflexivity.
Qed.

Lemma filter_all {A} (P : A -> Prop) `{!forall x, Decision (P x)} (l : list A) :
  (forall x, x ∈ l -> P x) -> filter P l = l.
Proof.
  induction l as [|x l IH]; intros Hall; [reflexivity|].
  rewrite filter_cons_True by (apply Hall; left).
  rewrite IH; [reflexivity|]. intros y Hy. apply Hall. right. exact Hy.
Qed.

Lemma filter_none {A} (P : A -> Prop) `{!forall x, Decision (P x)} (l : list A) :
  (forall x, x ∈ l -> ~ P x) -> filter P l = [].
Proof.
  induction l as [|x l IH]; intros Hall; [reflexivity|].
  rewrite filter_cons_False by (apply Hall; left).
  apply IH. intros y Hy. apply Hall. right. exact Hy.
Qed.

(** In the merged list, the records of client [j] are the list that
    session [j] returned, in its order. *)
Lemma merged_records_of a worlds ids ss j :
  NoDup ids ->
  Forall2 (fun i s => Harness.stream_video a i (worlds i) = Ok s) ids ss ->
  filter (fun r => Bench.client_id r = Some j) (concat (map bench ss))
  = match Harness.stream_video a j (worlds j) with
    | Ok s => if decide (j ∈ ids) then bench s else []
    | Raise _ => []
    end.
Proof.
  intros Hnd HF. induction HF as [|i s ids ss Hs HF IH]; cbn [map concat].
  - destruct (Harness.stream_video a j (worlds j)); [|reflexivity].
    rewrite decide_False; [reflexivity|]. apply not_elem_of_nil.
  - apply NoDup_cons in Hnd. destruct Hnd as [Hni Hnd].
    rewrite filter_app, (IH Hnd).
    destruct (decide (i = j)) as [->|Hne].
    + rewrite Hs.
      rewrite (decide_False (P := j ∈ ids)) by exact Hni.
      rewrite (decide_True (P := j ∈ j :: ids)) by left.
      rewrite app_nil_r.
      apply filter_all. intros r Hr.
      exact (harness_tagged _ _ _ _ _ Hs Hr).
    + assert (Hnone : filter (fun r => Bench.client_id r = Some j) (bench s) = []).
      { apply filter_none. intros r Hr Hj.
        rewrite (harness_tagged _ _ _ _ _ Hs Hr) in Hj. congruence. }
      rewrite Hnone. cbn [app].
      destruct (Harness.stream_video a j (worlds j)); [|reflexivity].
      destruct (decide (j ∈ ids)) as [Hin|Hnin].
      * rewrite (decide_True (P := j ∈ i :: ids)) by (right; exact Hin). reflexivity.
      * rewrite (decide_False (P := j ∈ i :: ids)); [reflexivity|].
        intros Hin. apply elem_of_cons in Hin. destruct Hin; [congruence|contradiction].
Qed.

Lemma main_inv a worlds rep :
  Harness.main a worlds = Ok rep ->
  Forall2 (fun i s => Harness.stream_video a i (worlds i) = Ok s)
          (seq 0 (Harness.clients a)) (Harness.results rep) /\
  Harness.all_benchmarks rep = concat (map bench (Harness.results rep)) /\
  Harness.summary rep = Bench.print_benchmark_summary (Harness.all_benchmarks rep) /\
  Harness.saved rep
  = match Harness.all_benchmarks rep with [] => None | l => Some l end.
Proof.
  unfold Harness.main. intros Hm.
  destruct (Harness.gather a worlds (seq 0 (Harness.clients a))) as [ss|e] eqn:Hg;
    simpl in Hm; [|discriminate].
  injection Hm as <-. simpl.
  rewrite merge_concat. simpl.
  split; [apply gather_inv; exact Hg|].
  split; [reflexivity|].
  split; destruct (concat (map bench ss)); reflexivity.
Qed.

Lemma main_returns a worlds :
  (forall i, (i < Harness.clients a)%nat -> Harness.annotates a = true ->
             cap_isOpened (worlds i) = true -> mkdir_ok (worlds i) = true) ->
  exists rep, Harness.main a worlds = Ok rep.
Proof.
  intros Hdir. unfold Harness.main.
  destruct (gather_returns a worlds (seq 0 (Harness.clients a))) as [ss ->].
  - intros i Hi. apply elem_of_seq in Hi. apply harness_returns.
    apply Hdir. lia.
  - simpl. eauto.
Qed.

Lemma main_records_of a worlds rep j s :
  Harness.main a worlds = Ok rep -> (j < Harness.clients a)%nat ->
  Harness.stream_video a j (worlds j) = Ok s ->
  filter (fun r => Bench.client_id r = Some j) (Harness.all_benchmarks rep) = bench s.
Proof.
  intros Hm Hj Hs. destruct (main_inv _ _ _ Hm) as (HF & -> & _).
  rewrite (merged_records_of a worlds _ _ j (NoDup_seq _ _) HF), Hs.
  rewrite decide_True; [reflexivity|]. apply elem_of_seq. lia.
Qed.

Lemma complete_session_length a i w s F :
  completes_fully (Harness.annotates a) F w ->
  Harness.stream_video a i w = Ok s -> length (bench s) = F.
Proof.
  intros (Hcap & _ & Hconn & Hlen & Hall) Hs.
  destruct (harness_trace _ _ _ _ Hs) as (k & T & Hstop).
  rewrite (trace_length _ _ _ _ _ T).
  destruct Hstop as [(Hc & _)|[(_ & e & Hc & _)|(_ & _ & [(Hk & _)|(Hk & Hfail & _)])]].
  - congruence.
  - congruence.
  - congruence.
  - rewrite Hall in Hfail by lia. discriminate.
Qed.

Lemma merged_length a worlds ids ss F :
  Forall2 (fun i s => Harness.stream_video a i (worlds i) = Ok s) ids ss ->
  (forall i s, i ∈ ids -> Harness.stream_video a i (worlds i) = Ok s ->
               length (bench s) = F) ->
  length (concat (map bench ss)) = (length ids * F)%nat.
Proof.
  intros HF. induction HF as [|i s ids ss Hs HF IH]; intros Hlen; [reflexivity|].
  cbn [map concat length]. rewrite length_app, IH.
  - rewrite (Hlen i s); [simpl; lia|left|exact Hs].
  - intros j sj Hj. apply Hlen. right. exact Hj.
Qed.

Lemma merged_origin a worlds ids ss (r : Bench.record) :
  Forall2 (fun i s => Harness.stream_video a i (worlds i) = Ok s) ids ss ->
  r ∈ concat (map bench ss) -> exists i, i ∈ ids /\ Bench.client_id r = Some i.
Proof.
  intros HF. induction HF as [|i s ids ss Hs HF IH]; cbn [map concat]; intros Hin.
  - apply elem_of_nil in Hin. contradiction.
  - apply elem_of_app in Hin. destruct Hin as [Hin|Hin].
    + exists i. split; [left|]. exact (harness_tagged _ _ _ _ _ Hs Hin).
    + destruct (IH Hin) as (j & Hj & Htag). exists j. split; [right|]; assumption.
Qed.

Lemma main_session a worlds rep i s :
  Harness.main a worlds = Ok rep -> Harness.results rep !! i = Some s ->
  (i < Harness.clients a)%nat /\ Harness.stream_video a i (worlds i) = Ok s.
Proof.
  intros Hm Hi. destruct (main_inv _ _ _ Hm) as (HF & _).
  destruct (Forall2_lookup_r _ _ _ _ _ HF Hi) as (i' & Hi' & Hs).
  apply lookup_seq in Hi'. destruct Hi' as [-> Hlt]. simpl in Hs. auto.
Qed.

Lemma main_session_at a worlds rep i :
  Harness.main a worlds = Ok rep -> (i < Harness.clients a)%nat ->
  exists s, Harness.results rep !! i = Some s /\
            Harness.stream_video a i (worlds i) = Ok s.
Proof.
  intros Hm Hi. destruct (main_inv _ _ _ Hm) as (HF & _).
  assert (Hseq : seq 0 (Harness.clients a) !! i = Some i).
  { apply lookup_seq. split; [reflexivity|exact Hi]. }
  destruct (Forall2_lookup_l _ _ _ _ _ HF Hseq) as (s & Hs & Hrun).
  eauto.
Qed.


End Orchestrator.

Section MergedRecords.
Import Session.

(** C3.  When each of the [clients] sessions runs to the end of a video of
    [F] frames, [main] returns, the merged list holds [clients * F]
    records, every record carries the zero-based index of the session that
    appended it, and each index below [clients] occurs on exactly [F]
    records. *)
Theorem full_run_yields_all_records `{cv : OpenCV} (a : Harness.args) (F : nat)
    (worlds : nat -> world) :
  (forall i, (i < Harness.clients a)%nat ->
             completes_fully (Harness.annotates a) F (worlds i)) ->
  exists rep,
    Harness.main a worlds = Ok rep /\
    length (Harness.all_benchmarks rep) = (Harness.clients a * F)%nat /\
    (forall r, r ∈ Harness.all_benchmarks rep ->
       exists i, (i < Harness.clients a)%nat /\ Bench.client_id r = Some i) /\
    (forall i, (i < Harness.clients a)%nat ->
       length (filter (fun r => Bench.client_id r = Some i)
                      (Harness.all_benchmarks rep)) = F) /\
    (forall i s, Harness.results rep !! i = Some s ->
       length (bench s) = F /\
       forall r, r ∈ bench s -> Bench.client_id r = Some i).
Proof.
  intros Hfull.
  destruct (main_returns a worlds) as [rep Hm].
  { intros i Hi Hann _. destruct (Hfull i Hi) as (_ & Hdir & _). auto. }
  exists rep. split; [exact Hm|].
  destruct (main_inv _ _ _ Hm) as (HF & Hall & _).
  split; [|split; [|split]].
  - rewrite Hall, (merged_length a worlds _ _ F HF), length_seq; [reflexivity|].
    intros i s Hi Hs. apply elem_of_seq in Hi.
    apply (complete_session_length a i (worlds i)); [apply Hfull; lia|exact Hs].
  - intros r Hr. rewrite Hall in Hr.
    destruct (merged_origin _ _ _ _ _ HF Hr) as (i & Hi & Htag).
    apply elem_of_seq in Hi. exists i. split; [lia|exact Htag].
  - intros i Hi.
    destruct (main_session_at _ _ _ _ Hm Hi) as (s & _ & Hs).
    rewrite (main_records_of _ _ _ _ _ Hm Hi Hs).
    apply (complete_session_length a i (worlds i)); [apply Hfull; exact Hi|exact Hs].
  - intros i s Hi.
    destruct (main_session _ _ _ _ _ Hm Hi) as (Hlt & Hs).
    split.
    + apply (complete_session_length a i (worlds i)); [apply Hfull; exact Hlt|exact Hs].
    + intros r Hr. exact (harness_tagged _ _ _ _ _ Hs Hr).
Qed.

Lemma steady_completes annotate n : completes_fully annotate n (Fixture.steady n).
Proof.
  repeat split; try reflexivity.
  - simpl. apply repeat_length.
  - intros idx _. simpl. destruct annotate; reflexivity.
Qed.

Lemma full_run_yields_all_records_witness :
  exists rep,
    Harness.main (cv := Fixture.toy_cv) (Fixture.benchmark_only 2)
                 (fun _ => Fixture.steady 5) = Ok rep /\
    length (Harness.all_benchmarks rep) = (2 * 5)%nat /\
    (forall r, r ∈ Harness.all_benchmarks rep ->
       exists i, (i < 2)%nat /\ Bench.client_id r = Some i) /\
    (forall i, (i < 2)%nat ->
       length (filter (fun r => Bench.client_id r = Some i)
                      (Harness.all_benchmarks rep)) = 5%nat) /\
    (forall i s, Harness.results rep !! i = Some s ->
       length (bench s) = 5%nat /\
       forall r, r ∈ bench s -> Bench.client_id r = Some i).
Proof.
  apply (full_run_yields_all_records (cv := Fixture.toy_cv)
           (Fixture.benchmark_only 2) 5 (fun _ => Fixture.steady 5)).
  intros i _. apply steady_completes.
Defined.

End MergedRecords.

Section DroppedSessions.
Import Session.


(** The round at which a session stops is the first one that does not
    complete. *)
Lemma first_incomplete_unique annotate (ex : nat -> exchange) (k k' : nat) :
  (forall j, (j < k)%nat -> completed annotate (ex j) = true) ->
  completed annotate (ex k) = false ->
  (forall j, (j < k')%nat -> completed annotate (ex j) = true) ->
  completed annotate (ex k') = false ->
  k' = k.
Proof.
  intros Hk Hfk Hk' Hfk'.
  destruct (Nat.lt_trichotomy k' k) as [Hlt|[Heq|Hgt]]; [|exact Heq|].
  - rewrite Hk in Hfk' by exact Hlt. discriminate.
  - rewrite Hk' in Hfk by exact Hgt. discriminate.
Qed.




End DroppedSessions.

(** ** Failures before the first frame *)

Section SetupFailures.
Import Session.

(** A harness session that cannot open the video returns an empty list
    and prints nothing: the failure is not reported. *)
Lemma unreadable_video_is_silent :
  ~ Harness.reported_abort
      (Harness.stream_video (cv := Fixture.toy_cv) (Fixture.benchmark_only 1) 0
                            Fixture.unreadable).
Proof. vm_compute. intros (Hlog & _). apply Hlog. reflexivity. Qed.

(** The harness never asks whether the video writer opened: with an
    output video that cannot be written, the session still streams every
    frame and appends every record. *)
Example harness_ignores_unopened_writer :
  exists s,
    Harness.stream_video (cv := Fixture.toy_cv) (Fixture.with_video 1) 0
                         (Fixture.unwritable 2) = Ok s /\
    length (sent s) = 2%nat /\ length (bench s) = 2%nat /\ log s = [].
Proof. eexists. split; [reflexivity|]. repeat split. Qed.

(** C8 (as amended).  A video that cannot be opened ends the unit of work
    before any frame is sent or any record appended: the client exits with
    a message, the harness session returns its empty list.  In the client,
    an output video that cannot be opened does the same, with its own
    message.  In the harness, an output directory that cannot be created
    raises out of the session, and so out of [main], before anything is
    sent. *)
Theorem setup_failure_aborts `{cv : OpenCV} (w : world) :
  (cap_isOpened w = false ->
     Client.stream_video w = (Client.SysExit (Client.ExitMessage CannotOpenVideo), empty) /\
     forall a cid, Harness.stream_video a cid w = Ok empty) /\
  (cap_isOpened w = true -> writer_isOpened w = false ->
     Client.stream_video w
     = (Client.SysExit (Client.ExitMessage CannotInitWriter), empty)) /\
  (cap_isOpened w = true -> mkdir_ok w = false ->
     forall a cid worlds,
       Harness.annotates a = true ->
       Harness.stream_video a cid w = Raise OSError /\
       ((cid < Harness.clients a)%nat -> worlds cid = w ->
        is_ok (Harness.main a worlds) = false)).
Proof.
  split; [|split].
  - intros Hcap. unfold Client.stream_video, Harness.stream_video.
    rewrite Hcap. simpl. auto.
  - intros Hcap Hwr. unfold Client.stream_video. rewrite Hcap, Hwr. reflexivity.
  - intros Hcap Hdir a cid worlds Hann.
    assert (Hraise : Harness.stream_video a cid w = Raise OSError).
    { unfold Harness.stream_video. rewrite Hcap, Hann, Hdir. reflexivity. }
    split; [exact Hraise|].
    intros Hlt Hw.
    destruct (Harness.main a worlds) as [rep|err] eqn:Hm; [|reflexivity].
    destruct (main_session_at _ _ _ _ Hm Hlt) as (s & _ & Hs).
    rewrite Hw, Hraise in Hs. discriminate.
Qed.

Lemma setup_failure_aborts_witness :
  (Client.stream_video (cv := Fixture.toy_cv) Fixture.unreadable
   = (Client.SysExit (Client.ExitMessage CannotOpenVideo), empty) /\
   forall a cid,
     Harness.stream_video (cv := Fixture.toy_cv) a cid Fixture.unreadable = Ok empty) /\
  Client.stream_video (cv := Fixture.toy_cv) (Fixture.unwritable 2)
  = (Client.SysExit (Client.ExitMessage CannotInitWriter), empty) /\
  Harness.stream_video (cv := Fixture.toy_cv) (Fixture.with_video 1) 0
                       Fixture.no_directory = Raise OSError.
Proof.
  split; [|split].
  - apply (proj1 (setup_failure_aborts (cv := Fixture.toy_cv) Fixture.unreadable)).
    reflexivity.
  - apply (proj1 (proj2 (setup_failure_aborts (cv := Fixture.toy_cv)
                           (Fixture.unwritable 2)))); reflexivity.
  - apply (proj2 (proj2 (setup_failure_aborts (cv := Fixture.toy_cv)
                           Fixture.no_directory))
             eq_refl eq_refl (Fixture.with_video 1) 0%nat
             (fun _ => Fixture.no_directory) eq_refl).
Defined.

End SetupFailures.

(** ** Summaries of an empty record set *)

Section EmptySummaries.
Context `{py : Python}.

(** C6, at the input on which the code departs from it.
    [print_benchmark_summary] returns at once on an empty list, as the
    claim asks; [analyze_and_print_metrics] on a file without rows raises
    [StatisticsError] from [statistics.mean], under every version of
    Python. *)
Theorem empty_record_set_summaries :
  Bench.print_benchmark_summary [] = None /\
  Summary.analyze_and_print_metrics [] = Raise StatisticsError.
Proof. split; reflexivity. Qed.

(** A single row passes [mean]; up to Python 3.12 it fails in
    [quantiles]. *)
Lemma single_row_before_3_13 (r : Summary.csv_row) :
  (minor <= 12)%nat ->
  Summary.analyze_and_print_metrics [r] = Raise StatisticsError.
Proof.
  intros Hv. unfold Summary.analyze_and_print_metrics, Summary.quantiles.
  destruct (Nat.leb_spec 13 minor); [lia|]. reflexivity.
Qed.

(** From Python 3.13 on every percentile of a single row is its delay. *)
Lemma single_row_from_3_13 (r : Summary.csv_row) :
  (13 <= minor)%nat ->
  exists m,
    Summary.analyze_and_print_metrics [r] = Ok m /\
    Summary.p95_latency m = Summary.row_delay_ms r /\
    Summary.p99_latency m = Summary.row_delay_ms r.
Proof.
  intros Hv. unfold Summary.analyze_and_print_metrics, Summary.quantiles.
  destruct (Nat.leb_spec 13 minor); [|lia].
  eexists. split; [reflexivity|]. split; reflexivity.
Qed.

Lemma sorted_length (l : list Q) : length (Summary.sorted l) = length l.
Proof.
  induction l as [|x l IH]; [reflexivity|]. simpl. rewrite <- IH.
  generalize (Summary.sorted l). clear. intros s.
  induction s as [|y s IHs]; [reflexivity|]. simpl.
  destruct (Numeric.Qlt_bool y x); simpl; [rewrite IHs|]; reflexivity.
Qed.

(** From two rows on, the analysis returns. *)
Lemma analyze_returns (rows : list Summary.csv_row) :
  (2 <= length rows)%nat -> is_ok (Summary.analyze_and_print_metrics rows) = true.
Proof.
  intros Hlen. unfold Summary.analyze_and_print_metrics, Summary.mean.
  destruct rows as [|r1 [|r2 rows]]; simpl in Hlen; try lia.
  cbn [map bind]. unfold Summary.quantiles.
  cbn [Nat.ltb Nat.leb].
  rewrite sorted_length. reflexivity.
Qed.

End EmptySummaries.

(** ** Post-processing *)

Section PostprocessFacts.
Import NumPy Server.

Lemma size_squeeze (a : ndarray) : size (squeeze a) = size a.
Proof.
  unfold size, squeeze. simpl.
  induction (shape a) as [|d ds IH]; [reflexivity|].
  destruct (decide (d <> 1%nat)) as [Hd|Hd].
  - rewrite filter_cons_True by exact Hd. simpl. rewrite IH. reflexivity.
  - rewrite filter_cons_False by exact Hd. simpl. rewrite IH.
    assert (d = 1%nat) as -> by (destruct (decide (d = 1%nat)); [assumption|contradiction]).
    lia.
Qed.


Lemma chunks_rows (n k : nat) (l : list Numeric.float) :
  length l = (n * k)%nat -> Forall (fun c => length c = k) (chunks n k l).
Proof.
  revert l. induction n as [|n IH]; intros l Hl; simpl; constructor.
  - rewrite length_take. simpl in Hl. lia.
  - apply IH. rewrite length_drop. simpl in Hl. lia.
Qed.

Lemma chunks_Forall (P : Numeric.float -> Prop) (n k : nat) (l : list Numeric.float) :
  Forall P l -> Forall (Forall P) (chunks n k l).
Proof.
  revert l. induction n as [|n IH]; intros l Hl; simpl; constructor.
  - apply Forall_take, Hl.
  - apply IH, Forall_drop, Hl.
Qed.

(** What the body of the loop does with a one-dimensional row. *)
Lemma postprocess_row_detections names sx sy results (c : list Numeric.float) :
  postprocess_row names sx sy results {| shape := [length c]; data := c |}
  = (ds <- Props.detections_of_row names sx sy c ;; Ok (results ++ ds)).
Proof.
  destruct c as [|x1 [|y1 [|x2 [|y2 [|s [|l rest]]]]]];
    try (unfold postprocess_row; simpl; rewrite app_nil_r; reflexivity).
  unfold postprocess_row. simpl. unfold truth_lt. simpl.
  destruct (Numeric.lt_f s CONF_THRESHOLD); simpl.
  - rewrite app_nil_r. reflexivity.
  - destruct (make_detection names x1 y1 x2 y2 s l sx sy); reflexivity.
Qed.

Lemma for_each_row_detections names sx sy (m : nat) (cs : list (list Numeric.float)) :
  forall acc,
    Forall (fun c => length c = m) cs ->
    for_each (postprocess_row names sx sy)
             (map (fun d => {| shape := [m]; data := d |}) cs) acc
    = for_each (fun acc c =>
                  ds <- Props.detections_of_row names sx sy c ;; Ok (acc ++ ds))
               cs acc.
Proof.
  induction cs as [|c cs IH]; intros acc Hall; simpl; [reflexivity|].
  apply Forall_cons in Hall. destruct Hall as [Hc Hall].
  rewrite <- Hc at 1. rewrite postprocess_row_detections.
  destruct (Props.detections_of_row names sx sy c); simpl; [|reflexivity].
  apply IH, Hall.
Qed.




(** With finite coordinates and a finite label nothing raises. *)
Lemma make_detection_finite names (x1 y1 x2 y2 l : Q) (s : Numeric.float) (sx sy : Q) :
  make_detection names (Numeric.Finite x1) (Numeric.Finite y1) (Numeric.Finite x2)
                 (Numeric.Finite y2) s (Numeric.Finite l) sx sy
  = Ok {| box := [ Numeric.int (x1 * sx); Numeric.int (y1 * sy);
                   Numeric.int (x2 * sx); Numeric.int (y2 * sy) ];
          score := Numeric.round_f s 4;
          label := Numeric.int l;
          name := class_name names (Numeric.int l) |}.
Proof. reflexivity. Qed.



(** When every row contributes detections with a property, so does the
    loop. *)
Lemma collect_all names sx sy (P : detection -> Prop)
    (cs : list (list Numeric.float)) : forall acc,
  Forall (fun c => exists ds, Props.detections_of_row names sx sy c = Ok ds /\
                              Forall P ds) cs ->
  Forall P acc ->
  exists out,
    for_each (fun acc c =>
                ds <- Props.detections_of_row names sx sy c ;; Ok (acc ++ ds))
             cs acc = Ok out /\
    Forall P out.
Proof.
  induction cs as [|c cs IH]; intros acc Hcs Hacc; simpl; [eauto|].
  apply Forall_cons in Hcs. destruct Hcs as [(ds & -> & Hds) Hcs].
  simpl. apply IH; [exact Hcs|]. apply Forall_app. split; assumption.
Qed.

(** [postprocess] on an array that is one- or two-dimensional once
    squeezed: the loop over its rows. *)
Lemma postprocess_rows names (a : ndarray) sx sy :
  wf a -> size a <> 0%nat ->
  (forall n, shape (squeeze a) = [n] ->
     postprocess names (Some a) sx sy
     = for_each (fun acc c =>
                   ds <- Props.detections_of_row names sx sy c ;; Ok (acc ++ ds))
                [data a] []) /\
  (forall n m, shape (squeeze a) = [n; m] ->
     postprocess names (Some a) sx sy
     = for_each (fun acc c =>
                   ds <- Props.detections_of_row names sx sy c ;; Ok (acc ++ ds))
                (chunks n m (data a)) []).
Proof.
  intros Hwf Hsize.
  assert (Hdata : length (data a) = size (squeeze a)).
  { rewrite size_squeeze. exact Hwf. }
  apply Nat.eqb_neq in Hsize.
  split.
  - intros n Hsh. unfold postprocess. rewrite Hsize. cbv zeta. unfold ndim.
    rewrite Hsh. cbn [length Nat.eqb]. unfold newaxis, iter.
    cbn [shape data bind]. rewrite Hsh. cbn [fold_right chunks map].
    unfold size in Hdata. rewrite Hsh in Hdata. cbn [fold_right] in Hdata.
    rewrite Nat.mul_1_r in *. change (data (squeeze a)) with (data a).
    rewrite take_ge by lia.
    rewrite (for_each_row_detections names sx sy n [data a]); [reflexivity|].
    constructor; [exact Hdata|constructor].
  - intros n m Hsh. unfold postprocess. rewrite Hsize. cbv zeta. unfold ndim.
    rewrite Hsh. cbn [length Nat.eqb]. unfold iter.
    rewrite Hsh. cbn [fold_right bind]. rewrite Nat.mul_1_r.
    unfold size in Hdata. rewrite Hsh in Hdata. cbn [fold_right] in Hdata.
    change (data (squeeze a)) with (data a).
    apply for_each_row_detections, chunks_rows. lia.
Qed.

(** A property of the numbers that makes every row contribute detections
    with a property [P] makes [postprocess] return such detections. *)
Lemma postprocess_all names sx sy (R : Numeric.float -> Prop)
    (P : detection -> Prop) (raw : option ndarray) :
  (forall c, Forall R c ->
     exists ds, Props.detections_of_row names sx sy c = Ok ds /\ Forall P ds) ->
  match raw with
  | None => True
  | Some a => wf a /\ (size a = 0%nat \/ row_shaped a) /\ Forall R (data a)
  end ->
  exists ds, postprocess names raw sx sy = Ok ds /\ Forall P ds.
Proof.
  intros Hrow.
  destruct raw as [a|]; [|intros _; eexists; split; [reflexivity|constructor]].
  intros (Hwf & Hshape & Hfin).
  destruct (decide (size a = 0%nat)) as [Hz|Hz].
  { unfold postprocess. apply Nat.eqb_eq in Hz. rewrite Hz.
    eexists. split; [reflexivity|constructor]. }
  destruct Hshape as [H0|Hsh']; [contradiction|].
  destruct (postprocess_rows names a sx sy Hwf Hz) as [H1 H2].
  unfold row_shaped, ndim in Hsh'.
  destruct (shape (squeeze a)) as [|n [|m [|? ?]]] eqn:Hsh; simpl in Hsh';
    try (destruct Hsh'; discriminate).
  - rewrite (H1 n eq_refl). apply collect_all; [|constructor].
    constructor; [apply Hrow, Hfin|constructor].
  - rewrite (H2 n m eq_refl). apply collect_all; [|constructor].
    eapply Forall_impl; [apply chunks_Forall, Hfin|]. exact Hrow.
Qed.



(** Six columns of two elements each: the comparison with the threshold has
    no truth value. *)
Example stacked_rows_raise :
  postprocess ∅ (Some {| shape := [2; 6; 2]%nat;
                         data := repeat (Numeric.Finite 1) 24 |}) 1 1
  = Raise ValueError.
Proof. reflexivity. Qed.

(** A score that is NaN is not below the threshold: the row is kept and
    the detection carries the NaN. *)
Example nan_score_is_kept :
  postprocess ∅ (Some Fixture.nan_score) 1 1
  = Ok [ {| box := [1; 2; 3; 4]%Z; score := Numeric.NaN; label := 0%Z;
            name := "cls0" |} ].
Proof. reflexivity. Qed.


Lemma two_rows_documented : documented (Some Fixture.two_rows).
Proof.
  split; [reflexivity|]. split; [right; right; reflexivity|].
  unfold Fixture.two_rows. cbn [data]. apply Forall_map, Forall_forall.
  intros q _. exact I.
Qed.


End PostprocessFacts.

(** ** The connection handler *)

Section HandlerFacts.
Context `{cv : OpenCV} `{eng : Engine}.
Import Server.

Lemma ws_stream_cons_decoded (data : list byte) (rest : list (list byte)) f ds :
  imdecode data = Ok (Some f) -> infer f = Ok ds ->
  ws_stream (data :: rest)
  = (Detections ds :: fst (ws_stream rest), snd (ws_stream rest)).
Proof.
  intros Hdec Hinf. simpl. rewrite Hdec, Hinf.
  destruct (ws_stream rest). reflexivity.
Qed.

Lemma ws_stream_cons_invalid (data : list byte) (rest : list (list byte)) :
  imdecode data = Ok None ->
  ws_stream (data :: rest)
  = (ErrorReply "invalid image" :: fst (ws_stream rest), snd (ws_stream rest)).
Proof.
  intros Hdec. simpl. rewrite Hdec. destruct (ws_stream rest). reflexivity.
Qed.

Lemma ws_stream_cons_crash (data : list byte) (rest : list (list byte)) f e :
  imdecode data = Ok (Some f) -> infer f = Raise e ->
  ws_stream (data :: rest) = ([], Crashed e).
Proof. intros Hdec Hinf. simpl. rewrite Hdec, Hinf. reflexivity. Qed.

Lemma ws_stream_cons_undecoded (data : list byte) (rest : list (list byte)) e :
  imdecode data = Raise e -> ws_stream (data :: rest) = ([], Crashed e).
Proof. intros Hdec. simpl. rewrite Hdec. reflexivity. Qed.

(** The handler keeps nothing from one message to the next. *)
Lemma ws_stream_app (pre post : list (list byte)) :
  match snd (ws_stream pre) with
  | Disconnected =>
      ws_stream (pre ++ post)
      = (fst (ws_stream pre) ++ fst (ws_stream post), snd (ws_stream post))
  | Crashed e => ws_stream (pre ++ post) = ws_stream pre
  end.
Proof.
  induction pre as [|data rest IH]; [simpl; destruct (ws_stream post); reflexivity|].
  rewrite <- app_comm_cons.
  destruct (imdecode data) as [[f|]|e] eqn:Hdec.
  - destruct (infer f) as [ds|e] eqn:Hinf.
    + rewrite (ws_stream_cons_decoded _ rest _ _ Hdec Hinf).
      rewrite (ws_stream_cons_decoded _ (rest ++ post) _ _ Hdec Hinf).
      cbn [fst snd]. destruct (snd (ws_stream rest)) eqn:Hc; rewrite IH;
        [reflexivity|rewrite Hc; reflexivity].
    + rewrite (ws_stream_cons_crash _ rest _ _ Hdec Hinf).
      rewrite (ws_stream_cons_crash _ (rest ++ post) _ _ Hdec Hinf). reflexivity.
  - rewrite (ws_stream_cons_invalid _ rest Hdec).
    rewrite (ws_stream_cons_invalid _ (rest ++ post) Hdec).
    cbn [fst snd]. destruct (snd (ws_stream rest)) eqn:Hc; rewrite IH;
        [reflexivity|rewrite Hc; reflexivity].
  - rewrite (ws_stream_cons_undecoded _ rest _ Hdec).
    rewrite (ws_stream_cons_undecoded _ (rest ++ post) _ Hdec). reflexivity.
Qed.

End HandlerFacts.

Section DecodeFailure.
Import Server.

(** C4, with the input on which the code departs from it.  While the
    handler is running, a message on which [cv2.imdecode] returns [None]
    is answered by the one error payload and the messages after it are
    handled as if it had not been sent.  The empty message is not among
    these: [cv2.imdecode] raises on it, the handler sends nothing, ends, and
    reads none of the messages after it. *)
Theorem empty_message_ends_session `{cv : OpenCV} `{eng : Engine}
    (pre post : list (list byte)) :
  snd (ws_stream pre) = Disconnected ->
  (forall bad,
     imdecode bad = Ok None ->
     ws_stream (pre ++ bad :: post)
     = (fst (ws_stream pre) ++ ErrorReply "invalid image" :: fst (ws_stream post),
        snd (ws_stream post))) /\
  ws_stream (pre ++ [] :: post) = (fst (ws_stream pre), Crashed CvError).
Proof.
  intros Hpre. split.
  - intros bad Hbad. pose proof (ws_stream_app pre (bad :: post)) as Happ.
    rewrite Hpre in Happ. rewrite Happ, (ws_stream_cons_invalid _ _ Hbad).
    reflexivity.
  - pose proof (ws_stream_app pre ([] :: post)) as Happ.
    rewrite Hpre in Happ.
    rewrite Happ, (ws_stream_cons_undecoded _ _ _ imdecode_empty).
    cbn [fst snd]. rewrite app_nil_r. reflexivity.
Qed.

Lemma empty_message_ends_session_witness :
  (forall bad,
     imdecode (OpenCV := Fixture.toy_cv) bad = Ok None ->
     ws_stream (cv := Fixture.toy_cv) (eng := Fixture.toy_engine)
               ([Fixture.first_message] ++ bad :: [Fixture.first_message])
     = (fst (ws_stream (cv := Fixture.toy_cv) (eng := Fixture.toy_engine)
                       [Fixture.first_message])
        ++ ErrorReply "invalid image"
           :: fst (ws_stream (cv := Fixture.toy_cv) (eng := Fixture.toy_engine)
                             [Fixture.first_message]),
        snd (ws_stream (cv := Fixture.toy_cv) (eng := Fixture.toy_engine)
                       [Fixture.first_message]))) /\
  ws_stream (cv := Fixture.toy_cv) (eng := Fixture.toy_engine)
            ([Fixture.first_message] ++ [] :: [Fixture.first_message])
  = (fst (ws_stream (cv := Fixture.toy_cv) (eng := Fixture.toy_engine)
                    [Fixture.first_message]),
     Crashed CvError).
Proof.
  apply (empty_message_ends_session (cv := Fixture.toy_cv)
           (eng := Fixture.toy_engine)
           [Fixture.first_message] [Fixture.first_message]).
  reflexivity.
Defined.

(** A message of one byte that is no image, between two frames. *)
Example garbage_between_frames :
  ws_stream (cv := Fixture.toy_cv) (eng := Fixture.toy_engine)
            [Fixture.first_message; [x02]; Fixture.first_message]
  = ([Sample.toy_reply; ErrorReply "invalid image"; Sample.toy_reply],
     Disconnected).
Proof. reflexivity. Qed.

End DecodeFailure.

(** ** Coordinates of the transmitted frame *)

Section Coordinates.
Import Session Server.

Lemma int_mul_1 (x : Q) : Numeric.int (x * 1) = Numeric.int x.
Proof.
  unfold Numeric.int, Qmult. simpl. rewrite Z.mul_1_r, Pos.mul_1_r. reflexivity.
Qed.

(** A frame that already has the input size is given scale factors 1. *)
Lemma preprocess_input_sized `{cv : OpenCV} (g : frame) :
  height g = INPUT_SIZE -> width g = INPUT_SIZE ->
  preprocess g = (cv2_resize g INPUT_SIZE INPUT_SIZE, 1%Q, 1%Q).
Proof. intros Hh Hw. unfold preprocess. rewrite Hh, Hw. reflexivity. Qed.


Lemma make_detection_unscaled names (x1 y1 x2 y2 lb : Q) (sc : Numeric.float) :
  make_detection names (Numeric.Finite x1) (Numeric.Finite y1)
                 (Numeric.Finite x2) (Numeric.Finite y2) sc (Numeric.Finite lb) 1 1
  = Ok {| box := [Numeric.int x1; Numeric.int y1; Numeric.int x2; Numeric.int y2];
          score := Numeric.round_f sc 4;
          label := Numeric.int lb;
          name := class_name names (Numeric.int lb) |}.
Proof. rewrite make_detection_finite, !int_mul_1. reflexivity. Qed.



Lemma parse_header_encoded (h : nat) (rest : list byte) (k : nat) :
  Fixture.parse_header (repeat x00 h ++ x01 :: rest) k
  = Some {| height := k + h; width := length rest; pixels := [] |}.
Proof.
  revert k. induction h as [|h IH]; intros k; simpl.
  - rewrite Nat.add_0_r. reflexivity.
  - rewrite IH. do 2 f_equal. lia.
Qed.

Lemma toy_cv_keeps_shape : CodecKeepsShape (cv := Fixture.toy_cv).
Proof.
  intros f. exists {| height := height f; width := width f; pixels := [] |}.
  split; [|split; reflexivity].
  cbn [imdecode imencode Fixture.toy_cv].
  pose proof (parse_header_encoded (height f) (repeat x00 (width f)) 0) as H.
  rewrite repeat_length in H. cbn [Nat.add] in H.
  destruct (repeat x00 (height f) ++ x01 :: repeat x00 (width f)) eqn:E.
  - destruct (height f); discriminate E.
  - rewrite H. reflexivity.
Qed.


End Coordinates.

(** * Further properties of the code *)

(** ** Post-processing, row by row *)

Section PostprocessRows.
Import NumPy Server.






(** X2.  Only the squeezed array matters: a batch axis, or any other axis of
    length one, added to or removed from the shape leaves the result
    unchanged. *)
Theorem postprocess_ignores_unit_axes (names : gmap Z string)
    (a b : ndarray) (scale_x scale_y : Q) :
  squeeze a = squeeze b ->
  postprocess names (Some a) scale_x scale_y
  = postprocess names (Some b) scale_x scale_y.
Proof.
  intros Hsq. unfold postprocess.
  rewrite <- (size_squeeze a), <- (size_squeeze b), Hsq. reflexivity.
Qed.

Lemma postprocess_ignores_unit_axes_witness :
  postprocess ∅ (Some Fixture.two_rows) 1 1
  = postprocess ∅ (Some {| shape := [2; 1; 6; 1]%nat; data := data Fixture.two_rows |}) 1 1.
Proof.
  apply (postprocess_ignores_unit_axes ∅ Fixture.two_rows
           {| shape := [2; 1; 6; 1]%nat; data := data Fixture.two_rows |} 1 1).
  reflexivity.
Defined.

End PostprocessRows.

(** ** Scaling back to the original frame *)

Section Scaling.
Import Server.

Lemma int_Qeq (p q : Q) : (p == q)%Q -> Numeric.int p = Numeric.int q.
Proof.
  unfold Qeq, Numeric.int. intros H.
  rewrite <- (Z.quot_mul_cancel_r (Qnum p) (Z.pos (Qden p)) (Z.pos (Qden q)))
    by discriminate.
  rewrite <- (Z.quot_mul_cancel_r (Qnum q) (Z.pos (Qden q)) (Z.pos (Qden p)))
    by discriminate.
  rewrite H. f_equal. lia.
Qed.

Lemma int_inject_Z (z : Z) : Numeric.int (inject_Z z) = z.
Proof. unfold Numeric.int. simpl. apply Z.quot_1_r. Qed.

Lemma int_mono (p q : Q) : (p <= q)%Q -> (Numeric.int p <= Numeric.int q)%Z.
Proof.
  unfold Qle, Numeric.int. intros H.
  rewrite <- (Z.quot_mul_cancel_r (Qnum p) (Z.pos (Qden p)) (Z.pos (Qden q)))
    by discriminate.
  rewrite <- (Z.quot_mul_cancel_r (Qnum q) (Z.pos (Qden q)) (Z.pos (Qden p)))
    by discriminate.
  replace (Z.pos (Qden q) * Z.pos (Qden p))%Z
    with (Z.pos (Qden p) * Z.pos (Qden q))%Z by lia.
  apply Z.quot_le_mono; [lia|exact H].
Qed.

Lemma truediv_correct (a b : Q) : (Numeric.truediv a b == a / b)%Q.
Proof. apply Qred_correct. Qed.

Lemma scale_back (n : nat) :
  (inject_Z (Z.of_nat INPUT_SIZE)
   * Numeric.truediv (inject_Z (Z.of_nat n)) (inject_Z (Z.of_nat INPUT_SIZE))
   == inject_Z (Z.of_nat n))%Q.
Proof.
  rewrite truediv_correct. field. discriminate.
Qed.

Lemma scale_nonneg (n : nat) :
  (0 <= Numeric.truediv (inject_Z (Z.of_nat n)) (inject_Z (Z.of_nat INPUT_SIZE)))%Q.
Proof.
  rewrite truediv_correct. apply Qle_shift_div_l; [reflexivity|].
  rewrite Qmult_0_l. unfold Qle. simpl. lia.
Qed.

(** X3.  [preprocess] hands the engine a 640x640 image whatever the size of the
    frame, and its two factors scale the input square back onto the frame:
    a coordinate between 0 and 640 of the engine's output lands, truncated,
    between 0 and the frame's width (height), 0 on 0 and 640 on the width
    (height) itself. *)
Theorem preprocess_scales_onto_frame `{cv : OpenCV} (f : frame) (x : Q) :
  (0 <= x)%Q -> (x <= inject_Z (Z.of_nat INPUT_SIZE))%Q ->
  let '(inp, scale_x, scale_y) := preprocess f in
  height inp = INPUT_SIZE /\ width inp = INPUT_SIZE /\
  (0 <= Numeric.int (x * scale_x) <= Z.of_nat (width f))%Z /\
  (0 <= Numeric.int (x * scale_y) <= Z.of_nat (height f))%Z /\
  Numeric.int (inject_Z (Z.of_nat INPUT_SIZE) * scale_x) = Z.of_nat (width f) /\
  Numeric.int (inject_Z (Z.of_nat INPUT_SIZE) * scale_y) = Z.of_nat (height f).
Proof.
  intros H0 H640. unfold preprocess.
  assert (Hbox : forall n : nat,
            (0 <= Numeric.int (x * Numeric.truediv (inject_Z (Z.of_nat n))
                                     (inject_Z (Z.of_nat INPUT_SIZE)))
             <= Z.of_nat n)%Z /\
            Numeric.int (inject_Z (Z.of_nat INPUT_SIZE)
                         * Numeric.truediv (inject_Z (Z.of_nat n))
                             (inject_Z (Z.of_nat INPUT_SIZE)))
            = Z.of_nat n).
  { intros n. pose proof (scale_nonneg n) as Hs. pose proof (scale_back n) as Hb.
    set (s := Numeric.truediv _ _) in *.
    assert (Hfull : Numeric.int (inject_Z (Z.of_nat INPUT_SIZE) * s) = Z.of_nat n).
    { rewrite (int_Qeq _ _ Hb). apply int_inject_Z. }
    split; [|exact Hfull]. split.
    - change 0%Z with (Numeric.int 0). apply int_mono.
      apply Qmult_le_0_compat; assumption.
    - rewrite <- Hfull. apply int_mono.
      apply Qmult_le_compat_r; assumption. }
  destruct (Hbox (width f)) as [Hw1 Hw2]. destruct (Hbox (height f)) as [Hh1 Hh2].
  repeat split; (reflexivity || apply Hw1 || apply Hh1 || assumption).
Qed.

Lemma preprocess_scales_onto_frame_witness :
  let '(inp, scale_x, scale_y) :=
    preprocess (cv := Fixture.toy_cv) Fixture.small_frame in
  height inp = INPUT_SIZE /\ width inp = INPUT_SIZE /\
  (0 <= Numeric.int (320 * scale_x) <= Z.of_nat (width Fixture.small_frame))%Z /\
  (0 <= Numeric.int (320 * scale_y) <= Z.of_nat (height Fixture.small_frame))%Z /\
  Numeric.int (inject_Z (Z.of_nat INPUT_SIZE) * scale_x)
  = Z.of_nat (width Fixture.small_frame) /\
  Numeric.int (inject_Z (Z.of_nat INPUT_SIZE) * scale_y)
  = Z.of_nat (height Fixture.small_frame).
Proof.
  apply (preprocess_scales_onto_frame (cv := Fixture.toy_cv) Fixture.small_frame 320).
  - vm_compute. discriminate.
  - vm_compute. discriminate.
Defined.

End Scaling.

(** ** The handler, message by message *)

Section HandlerSteps.
Context `{cv : OpenCV} `{eng : Engine}.
Import Server.

(** X4.  The replies answer the messages one for one and in order, up to the
    first message on which [cv2.imdecode] raises or whose frame makes
    inference raise: that message and every later one get no reply.
    Without such a message every message is answered. *)
Theorem handler_answers_in_order (msgs : list (list byte)) :
  let replies := fst (ws_stream msgs) in
  Forall2 answers (take (length replies) msgs) replies /\
  match snd (ws_stream msgs) with
  | Disconnected => length replies = length msgs
  | Crashed e =>
      exists data,
        msgs !! length replies = Some data /\
        (imdecode data = Raise e \/
         exists f, imdecode data = Ok (Some f) /\ infer f = Raise e)
  end.
Proof.
  induction msgs as [|data rest [IHa IHc]]; [split; [constructor|reflexivity]|].
  destruct (imdecode data) as [[f|]|e] eqn:Hdec.
  - destruct (infer f) as [ds|e] eqn:Hinf.
    + rewrite (ws_stream_cons_decoded _ _ _ _ Hdec Hinf). cbn [fst snd length take].
      split.
      * constructor; [|exact IHa]. unfold answers. rewrite Hdec. eauto.
      * destruct (snd (ws_stream rest)); [f_equal; exact IHc|exact IHc].
    + rewrite (ws_stream_cons_crash _ _ _ _ Hdec Hinf). cbn [fst snd length take].
      split; [constructor|]. exists data. split; [reflexivity|]. right. eauto.
  - rewrite (ws_stream_cons_invalid _ _ Hdec). cbn [fst snd length take].
    split.
    + constructor; [|exact IHa]. unfold answers. rewrite Hdec. reflexivity.
    + destruct (snd (ws_stream rest)); [f_equal; exact IHc|exact IHc].
  - rewrite (ws_stream_cons_undecoded _ _ _ Hdec). cbn [fst snd length take].
    split; [constructor|]. exists data. split; [reflexivity|]. left. exact Hdec.
Qed.

(** X5.  What the handler does with a sequence of messages followed by another:
    if it is still running after the first, the replies are those to the
    first followed by those to the second; if it stopped on an exception,
    nothing is added. *)
Theorem handler_composes (pre post : list (list byte)) :
  match snd (ws_stream pre) with
  | Disconnected =>
      ws_stream (pre ++ post)
      = (fst (ws_stream pre) ++ fst (ws_stream post), snd (ws_stream post))
  | Crashed e => ws_stream (pre ++ post) = ws_stream pre
  end.
Proof. apply ws_stream_app. Qed.

End HandlerSteps.

(** ** Drawing *)

Section Drawing.
Import Session.

Lemma draw_loop_ok (dets : list Server.detection) : forall ops,
  Forall (fun d => Props.drawable_box (Server.box d)) dets ->
  Forall Props.text_in_frame ops ->
  exists out,
    for_each draw_detection dets ops = Ok out /\
    length out = (length ops + 2 * length dets)%nat /\
    Forall Props.text_in_frame out.
Proof.
  induction dets as [|d dets IH]; intros ops Hbox Hops; simpl.
  - exists ops. split; [reflexivity|]. split; [lia|exact Hops].
  - apply Forall_cons in Hbox. destruct Hbox as [Hd Hbox].
    destruct Hd as (x1 & y1 & x2 & y2 & Hd & Hfit).
    unfold draw_detection at 1. rewrite Hd, Hfit. simpl.
    destruct (IH (ops ++ [Rectangle x1 y1 x2 y2;
                          PutText (Server.name d) (Server.score d) x1
                                  (Z.max (y1 - 6) 12)]) Hbox)
      as (out & Hout & Hlen & Htext).
    { apply Forall_app. split; [exact Hops|].
      repeat constructor. simpl. lia. }
    exists out. split; [exact Hout|]. split; [|exact Htext].
    rewrite Hlen, length_app. simpl. lia.
Qed.

Lemma draw_loop_bad (good : list Server.detection) (bad : Server.detection)
    (rest : list Server.detection) (e : exn) : forall ops,
  Forall (fun d => Props.drawable_box (Server.box d)) good ->
  (forall ops', draw_detection ops' bad = Raise e) ->
  for_each draw_detection (good ++ bad :: rest) ops = Raise e.
Proof.
  induction good as [|d good IH]; intros ops Hgood Hbad; simpl.
  - rewrite Hbad. reflexivity.
  - apply Forall_cons in Hgood. destruct Hgood as [Hd Hgood].
    destruct Hd as (x1 & y1 & x2 & y2 & Hd & Hfit).
    unfold draw_detection at 1. rewrite Hd, Hfit. simpl. apply IH; assumption.
Qed.

(** X6.  [draw_detections] draws a rectangle and a caption per detection, the
    caption never higher than 12 pixels from the top, when every box has
    four coordinates in the range of a C [int].  The first box that has not
    makes it raise: [ValueError] when it has not four coordinates, the
    error of OpenCV when one of the four is out of range. *)
Theorem draw_detections_needs_four_coordinates (dets : list Server.detection) :
  (Forall (fun d => Props.drawable_box (Server.box d)) dets ->
   exists ops,
     draw_detections dets = Ok ops /\
     length ops = (2 * length dets)%nat /\
     Forall Props.text_in_frame ops) /\
  (forall good bad rest,
     dets = good ++ bad :: rest ->
     Forall (fun d => Props.drawable_box (Server.box d)) good ->
     (length (Server.box bad) <> 4%nat ->
      draw_detections dets = Raise ValueError) /\
     (length (Server.box bad) = 4%nat ->
      Exists (fun z => fits_int z = false) (Server.box bad) ->
      draw_detections dets = Raise CvError)).
Proof.
  split.
  - intros Hbox. destruct (draw_loop_ok dets [] Hbox) as (out & Hout & Hlen & Ht);
      [constructor|].
    exists out. split; [exact Hout|]. split; [exact Hlen|exact Ht].
  - intros good bad rest -> Hgood. split.
    + intros Hbad. apply draw_loop_bad; [exact Hgood|].
      intros ops'. unfold draw_detection.
      destruct (Server.box bad) as [|x1 [|y1 [|x2 [|y2 [|? ?]]]]];
        try reflexivity.
      exfalso. apply Hbad. reflexivity.
    + intros Hlen Hout. apply draw_loop_bad; [exact Hgood|].
      intros ops'. unfold draw_detection.
      destruct (Server.box bad) as [|x1 [|y1 [|x2 [|y2 [|? ?]]]]];
        try discriminate.
      destruct (fits_int x1 && fits_int y1 && fits_int x2 && fits_int y2) eqn:Hfit;
        [|reflexivity].
      apply andb_prop in Hfit. destruct Hfit as [Hfit H4].
      apply andb_prop in Hfit. destruct Hfit as [Hfit H3].
      apply andb_prop in Hfit. destruct Hfit as [H1 H2].
      exfalso.
      repeat match goal with
             | H : Exists _ (_ :: _) |- _ => apply Exists_cons in H; destruct H as [H|H]
             | H : Exists _ [] |- _ => apply Exists_nil in H; contradiction
             end; congruence.
Qed.

Lemma valid_detections_drawable (ds : list Server.detection) :
  Forall (fun d => Props.drawable_box (Server.box d)) ds ->
  is_ok (draw_detections ds) = true.
Proof.
  intros Hvalid.
  destruct (draw_loop_ok ds [] Hvalid) as (out & Hout & _); [constructor|].
  unfold draw_detections. rewrite Hout. reflexivity.
Qed.

Lemma draw_detections_needs_four_coordinates_witness :
  exists ops,
    draw_detections Sample.toy_detections = Ok ops /\
    length ops = (2 * length Sample.toy_detections)%nat /\
    Forall Props.text_in_frame ops.
Proof.
  apply (proj1 (draw_detections_needs_four_coordinates Sample.toy_detections)).
  repeat constructor. exists 10%Z, 20%Z, 30%Z, 40%Z. split; reflexivity.
Defined.

(** A box beyond the range of a C [int] is refused. *)
Example far_box_is_refused :
  draw_detections
    [ {| Server.box := [0; 0; 2 ^ 31; 10]%Z; Server.score := Numeric.Finite 1;
         Server.label := 0%Z; Server.name := "person" |} ]
  = Raise CvError.
Proof. reflexivity. Qed.

End Drawing.

(** ** What a session sends and writes *)

Section SentAndWritten.
Context `{cv : OpenCV}.
Import Session.

Lemma loop_written annotate cid ex frames : forall idx st st' r,
  loop annotate cid ex frames idx st = (st', r) ->
  (length (bench st) <= length (bench st'))%nat /\
  (annotate = true ->
   (length (written st') + length (bench st)
    = length (written st) + length (bench st'))%nat) /\
  (annotate = false -> written st' = written st).
Proof.
  induction frames as [|f rest IH]; intros idx st st' r Hloop; simpl in Hloop.
  - injection Hloop as <- <-. repeat split; auto.
  - destruct (ex idx) as [t0 t1 msg|e|e].
    + destruct annotate.
      * destruct (draw_detections (detections_of msg)) as [ops|e]; simpl in Hloop.
        -- apply IH in Hloop. destruct Hloop as (Hle & Hw & _).
           simpl in Hle, Hw. rewrite !length_app in *. simpl in *.
           split; [lia|]. split; [|discriminate].
           intros _. specialize (Hw eq_refl). lia.
        -- injection Hloop as <- <-. simpl. repeat split; auto; discriminate.
      * simpl in Hloop. apply IH in Hloop. destruct Hloop as (Hle & _ & Hw).
        simpl in Hle, Hw. rewrite length_app in Hle. simpl in Hle.
        split; [lia|]. split; [discriminate|].
        intros _. rewrite (Hw eq_refl), app_nil_r. reflexivity.
    + injection Hloop as <- <-. repeat split; auto.
    + injection Hloop as <- <-. simpl. repeat split; auto.
Qed.

Lemma loop_sent annotate cid w st r :
  loop annotate cid (exchanges w) (video w) 0 empty = (st, r) ->
  exists n,
    sent st = map encode_frame (take n (video w)) /\
    (n <= length (video w))%nat /\
    (length (bench st) <= n <= length (bench st) + 1)%nat /\
    (r = None -> n = length (bench st) /\ n = length (video w)).
Proof.
  intros Hloop. apply loop_spec in Hloop.
  destruct Hloop as (k & n & recs & Hb & Hr & _ & Hs & Hkn & Hn & _ & Hend).
  simpl in Hb, Hs.
  assert (Hk : length (bench st) = k).
  { rewrite Hb. apply (f_equal (@length _)) in Hr.
    rewrite !length_map, length_seq in Hr. exact Hr. }
  exists n. rewrite Hk. split; [exact Hs|]. split; [exact Hn|]. split; [exact Hkn|].
  intros ->. lia.
Qed.

(** The in-memory state of a client run, whichever way it ended. *)
Lemma client_session_inv (w : world) :
  (bench (snd (Client.stream_video w)) = [] /\
   sent (snd (Client.stream_video w)) = [] /\
   written (snd (Client.stream_video w)) = []) \/
  (cap_isOpened w = true /\ writer_isOpened w = true /\ connect w = Connected /\
   exists st r,
     loop true None (exchanges w) (video w) 0 empty = (st, r) /\
     bench (snd (Client.stream_video w)) = bench st /\
     sent (snd (Client.stream_video w)) = sent st /\
     written (snd (Client.stream_video w)) = written st).
Proof.
  unfold Client.stream_video.
  destruct (cap_isOpened w); simpl; [|left; auto].
  destruct (writer_isOpened w); simpl; [|left; auto].
  destruct (connect w) as [|e].
  - right. repeat split.
    destruct (loop true None (exchanges w) (video w) 0 empty) as [st [e|]].
    + exists st, (Some e). destruct e; simpl; auto.
    + exists st, None. simpl. auto.
  - left. destruct e; simpl; auto.
Qed.

Lemma harness_session_inv (a : Harness.args) (cid : nat) (w : world) (s : session) :
  Harness.stream_video a cid w = Ok s ->
  (bench s = [] /\ sent s = [] /\ written s = []) \/
  (exists st r,
     loop (Harness.annotates a) (Some cid) (exchanges w) (video w) 0 empty = (st, r) /\
     bench s = bench st /\ sent s = sent st /\ written s = written st).
Proof.
  intros Hs. apply harness_stream_video_inv in Hs.
  destruct Hs as [[_ ->]|(_ & _ & [(e & _ & ->)|(_ & st & r & Hloop & ->)])].
  - left. auto.
  - left. auto.
  - right. exists st, r. split; [exact Hloop|]. destruct r; simpl; auto.
Qed.

(** X7.  A session sends the frames of the video in order, from the first and
    without a gap, and at any end has a record for every frame it sent
    except possibly the last: at most one frame is ever in flight. *)
Theorem one_frame_in_flight (w : world) (s : session) :
  leaves w s ->
  exists n,
    sent s = map encode_frame (take n (video w)) /\
    (n <= length (video w))%nat /\
    (length (bench s) <= n <= length (bench s) + 1)%nat.
Proof.
  intros [a cid s' Hs|].
  - destruct (harness_session_inv _ _ _ _ Hs)
      as [(Hb & Hsent & _)|(st & r & Hloop & Hb & Hsent & _)].
    + exists 0%nat. rewrite Hb, Hsent, take_0. simpl. split; [reflexivity|lia].
    + destruct (loop_sent _ _ _ _ _ Hloop) as (n & Hn1 & Hn2 & Hn3 & _).
      exists n. rewrite Hb, Hsent. auto.
  - destruct (client_session_inv w)
      as [(Hb & Hsent & _)|(_ & _ & _ & st & r & Hloop & Hb & Hsent & _)].
    + exists 0%nat. rewrite Hb, Hsent, take_0. simpl. split; [reflexivity|lia].
    + destruct (loop_sent _ _ _ _ _ Hloop) as (n & Hn1 & Hn2 & Hn3 & _).
      exists n. rewrite Hb, Hsent. auto.
Qed.

(** X8.  The annotated video gets exactly one frame per benchmark record: in
    [client.py] always, in the harness when [--video-out] is given; without
    it the harness writes nothing. *)
Theorem one_video_frame_per_record (w : world) :
  length (written (snd (Client.stream_video w)))
  = length (bench (snd (Client.stream_video w))) /\
  forall a cid s,
    Harness.stream_video a cid w = Ok s ->
    length (written s)
    = if Harness.annotates a then length (bench s) else 0%nat.
Proof.
  split.
  - destruct (client_session_inv w)
      as [(Hb & _ & Hw)|(_ & _ & _ & st & r & Hloop & Hb & _ & Hw)].
    + rewrite Hb, Hw. reflexivity.
    + rewrite Hb, Hw. apply loop_written in Hloop.
      destruct Hloop as (_ & Hlen & _). specialize (Hlen eq_refl).
      simpl in Hlen. lia.
  - intros a cid s Hs.
    destruct (harness_session_inv _ _ _ _ Hs)
      as [(Hb & _ & Hw)|(st & r & Hloop & Hb & _ & Hw)].
    + rewrite Hb, Hw. destruct (Harness.annotates a); reflexivity.
    + rewrite Hb, Hw. apply loop_written in Hloop.
      destruct Hloop as (_ & Hyes & Hno).
      destruct (Harness.annotates a).
      * specialize (Hyes eq_refl). simpl in Hyes. lia.
      * rewrite (Hno eq_refl). reflexivity.
Qed.

End SentAndWritten.

Section SentAndWrittenExamples.
Import Session.

Lemma one_frame_in_flight_witness :
  exists n,
    sent Fixture.dropped_session
    = map (encode_frame (cv := Fixture.toy_cv)) (take n (video (Fixture.drops_at 2 5))) /\
    (n <= length (video (Fixture.drops_at 2 5)))%nat /\
    (length (bench Fixture.dropped_session) <= n
     <= length (bench Fixture.dropped_session) + 1)%nat.
Proof.
  apply (one_frame_in_flight (cv := Fixture.toy_cv) (Fixture.drops_at 2 5)
           Fixture.dropped_session).
  apply (leaves_harness _ (Fixture.benchmark_only 1) 0). reflexivity.
Defined.

End SentAndWrittenExamples.

(** ** How a client run ends *)

Section ClientOutcome.
Context `{cv : OpenCV}.
Import Session.

Lemma client_finishes (w : world) :
  cap_isOpened w = true -> writer_isOpened w = true -> connect w = Connected ->
  (forall idx, (idx < length (video w))%nat ->
               completed true (exchanges w idx) = true) ->
  exists st,
    Client.stream_video w
    = (Client.Finished (bench st) (Bench.print_benchmark_summary (bench st)), st) /\
    length (bench st) = length (video w) /\
    sent st = map encode_frame (video w) /\
    log st = [].
Proof.
  intros Hcap Hwr Hconn Hall. unfold Client.stream_video.
  rewrite Hcap, Hwr, Hconn. simpl.
  destruct (loop true None (exchanges w) (video w) 0 empty) as [st r] eqn:Hloop.
  destruct (loop_trace _ _ _ _ _ Hloop) as (k & T & Hlog & Hend).
  destruct (loop_sent _ _ _ _ _ Hloop) as (n & Hsent & _ & _ & Hnone).
  destruct r as [e|].
  - destruct Hend as [Hlt Hbad]. rewrite Hall in Hbad by exact Hlt. discriminate.
  - exists st. split; [reflexivity|].
    destruct (Hnone eq_refl) as [Hn1 Hn2].
    split; [lia|]. split; [|exact Hlog].
    rewrite Hsent, Hn2, firstn_all. reflexivity.
Qed.

Lemma client_finished_inv (w : world) b sm :
  fst (Client.stream_video w) = Client.Finished b sm ->
  cap_isOpened w = true /\ writer_isOpened w = true /\ connect w = Connected /\
  forall idx, (idx < length (video w))%nat ->
              completed true (exchanges w idx) = true.
Proof.
  unfold Client.stream_video.
  destruct (cap_isOpened w); simpl; [|discriminate].
  destruct (writer_isOpened w); simpl; [|discriminate].
  destruct (connect w) as [|e]; [|destruct e; discriminate].
  destruct (loop true None (exchanges w) (video w) 0 empty) as [st r] eqn:Hloop.
  destruct (loop_trace _ _ _ _ _ Hloop) as (k & (_ & _ & Hc & _) & _ & Hend).
  destruct r as [e|]; [destruct e; discriminate|].
  intros _. subst k. auto.
Qed.

(** X9.  [client.py] reaches the saving of the benchmark exactly when the video
    and the writer opened, the connection was made and every round trip
    returned a reply that could be drawn; it then has sent every frame of
    the video, saves one record per frame and prints the summary of these
    records. *)
Theorem client_finishes_exactly_when_all_frames_pass (w : world) :
  ((exists b sm, fst (Client.stream_video w) = Client.Finished b sm) <->
   (cap_isOpened w = true /\ writer_isOpened w = true /\ connect w = Connected /\
    forall idx, (idx < length (video w))%nat ->
                completed true (exchanges w idx) = true)) /\
  (forall b sm,
     fst (Client.stream_video w) = Client.Finished b sm ->
     b = bench (snd (Client.stream_video w)) /\
     sm = Bench.print_benchmark_summary b /\
     length b = length (video w) /\
     sent (snd (Client.stream_video w)) = map encode_frame (video w)).
Proof.
  split; [split|].
  - intros (b & sm & Hfin). exact (client_finished_inv _ _ _ Hfin).
  - intros (Hcap & Hwr & Hconn & Hall).
    destruct (client_finishes w Hcap Hwr Hconn Hall) as (st & -> & _).
    simpl. eauto.
  - intros b sm Hfin.
    destruct (client_finished_inv _ _ _ Hfin) as (Hcap & Hwr & Hconn & Hall).
    destruct (client_finishes w Hcap Hwr Hconn Hall) as (st & Hrun & Hlen & Hsent & _).
    rewrite Hrun in Hfin |- *. simpl in Hfin |- *.
    injection Hfin as <- <-. auto.
Qed.

End ClientOutcome.

(** ** The output video and the benchmark *)

Section VideoOutput.
Context `{cv : OpenCV}.
Import Session.

Lemma completed_drawable (w : world) (annotate : bool) (idx : nat) :
  Props.drawable w ->
  completed annotate (exchanges w idx) = completed false (exchanges w idx).
Proof.
  intros Hdraw. unfold completed.
  destruct (exchanges w idx) as [t0 t1 msg| |] eqn:Hex; try reflexivity.
  destruct annotate; [|reflexivity]. exact (Hdraw _ _ _ _ Hex).
Qed.

Lemma map_Some_inj {A} (l1 l2 : list A) : map Some l1 = map Some l2 -> l1 = l2.
Proof.
  revert l2. induction l1 as [|x l1 IH]; intros [|y l2] H; try discriminate.
  - reflexivity.
  - simpl in H. injection H as -> H. f_equal. apply IH, H.
Qed.

Lemma harness_bench_plain (a : Harness.args) (cid : nat) (w : world) (s : session) :
  Props.drawable w -> Harness.stream_video a cid w = Ok s ->
  exists k,
    map Some (bench s)
    = map (fun j => record_of (Some cid) j (exchanges w j)) (seq 0 k) /\
    (forall j, (j < k)%nat -> completed false (exchanges w j) = true) /\
    ((k = 0%nat /\ (cap_isOpened w = false \/ connect w <> Connected)) \/
     (cap_isOpened w = true /\ connect w = Connected /\
      (k = length (video w) \/
       ((k < length (video w))%nat /\ completed false (exchanges w k) = false)))).
Proof.
  intros Hdraw Hs. destruct (harness_trace _ _ _ _ Hs) as (k & T & Hstop).
  destruct T as (Tb & _ & Tc & _).
  exists k. split; [exact Tb|]. split.
  { intros j Hj. rewrite <- (completed_drawable w (Harness.annotates a)) by exact Hdraw.
    apply Tc, Hj. }
  destruct Hstop as [(Hcap & -> & _)|[(Hcap & e & Hconn & -> & _)|(Hcap & Hconn & Hrun)]].
  - left. auto.
  - left. split; [reflexivity|]. right. rewrite Hconn. discriminate.
  - right. split; [exact Hcap|]. split; [exact Hconn|].
    destruct Hrun as [(-> & _)|(Hlt & Hbad & _)]; [left; reflexivity|right].
    split; [exact Hlt|].
    rewrite <- (completed_drawable w (Harness.annotates a)) by exact Hdraw. exact Hbad.
Qed.

(** X10.  Asking the harness for an output video does not change what it
    measures: as long as every reply can be drawn, a session returns the
    same benchmark records with and without [--video-out]. *)
Theorem video_output_keeps_records (a1 a2 : Harness.args) (cid : nat) (w : world)
    (s1 s2 : session) :
  Props.drawable w ->
  Harness.stream_video a1 cid w = Ok s1 ->
  Harness.stream_video a2 cid w = Ok s2 ->
  bench s1 = bench s2.
Proof.
  intros Hdraw H1 H2.
  destruct (harness_bench_plain _ _ _ _ Hdraw H1) as (k1 & Hb1 & Hc1 & Hstop1).
  destruct (harness_bench_plain _ _ _ _ Hdraw H2) as (k2 & Hb2 & Hc2 & Hstop2).
  assert (k1 = k2) as ->.
  { destruct Hstop1 as [(-> & Hwhy1)|(Hcap1 & Hconn1 & Hrun1)];
      destruct Hstop2 as [(-> & Hwhy2)|(Hcap2 & Hconn2 & Hrun2)].
    - reflexivity.
    - destruct Hwhy1; congruence.
    - destruct Hwhy2; congruence.
    - destruct Hrun1 as [->|(Hlt1 & Hbad1)]; destruct Hrun2 as [->|(Hlt2 & Hbad2)].
      + reflexivity.
      + rewrite Hc1 in Hbad2 by exact Hlt2. discriminate.
      + rewrite Hc2 in Hbad1 by exact Hlt1. discriminate.
      + exact (first_incomplete_unique _ _ _ _ Hc2 Hbad2 Hc1 Hbad1). }
  apply map_Some_inj. rewrite Hb1, Hb2. reflexivity.
Qed.

End VideoOutput.

Section VideoOutputExamples.
Import Session.

Lemma steady_drawable n : Props.drawable (Fixture.steady n).
Proof. intros idx t0 t1 msg E. simpl in E. injection E as _ _ <-. reflexivity. Qed.

Lemma video_output_keeps_records_witness :
  bench Fixture.steady_session = bench Sample.steady_video_session.
Proof.
  apply (video_output_keeps_records (cv := Fixture.toy_cv)
           (Fixture.benchmark_only 1) (Fixture.with_video 1) 0 (Fixture.steady 2)).
  - apply steady_drawable.
  - reflexivity.
  - reflexivity.
Defined.

End VideoOutputExamples.

(** ** A client of this server *)

Section ServedSessions.
Context `{cv : OpenCV} `{eng : Engine}.
Context `{keeps : !CodecKeepsShape} `{tame : !Props.TameEngine}.
Import Session.

Lemma int_in_range (q : Q) :
  (inject_Z (- 2 ^ 31) <= q)%Q -> (q <= inject_Z (2 ^ 31 - 1))%Q ->
  fits_int (Numeric.int q) = true.
Proof.
  intros Hlo Hhi. apply int_mono in Hlo, Hhi. rewrite int_inject_Z in Hlo, Hhi.
  unfold fits_int. apply andb_true_intro. split.
  - apply Z.leb_le. exact Hlo.
  - apply Z.ltb_lt. lia.
Qed.

Lemma detections_of_row_tame names (c : list Numeric.float) :
  Forall Props.in_int_range c ->
  exists ds,
    Props.detections_of_row names 1 1 c = Ok ds /\
    Forall (fun d => Props.drawable_box (Server.box d)) ds.
Proof.
  destruct c as [|x1 [|y1 [|x2 [|y2 [|s [|l rest]]]]]];
    try (intros _; exists []; split; [reflexivity|constructor]).
  intros Hc.
  repeat match goal with
         | H : Forall _ (_ :: _) |- _ =>
             apply Forall_cons in H; let H1 := fresh "R" in destruct H as [H1 H]
         end.
  destruct R as (q1 & -> & Hq1), R0 as (q2 & -> & Hq2), R1 as (q3 & -> & Hq3),
           R2 as (q4 & -> & Hq4), R3 as (qs & -> & _), R4 as (ql & -> & _).
  cbn [Props.detections_of_row Numeric.lt_f].
  destruct (Numeric.Qlt_bool qs Server.CONF_THRESHOLD).
  - exists []. split; [reflexivity|constructor].
  - rewrite make_detection_unscaled. eexists. split; [reflexivity|].
    constructor; [|constructor]. cbn [Server.box].
    exists (Numeric.int q1), (Numeric.int q2), (Numeric.int q3), (Numeric.int q4).
    split; [reflexivity|].
    rewrite !int_in_range by tauto. reflexivity.
Qed.

(** On a frame of the input size [infer] returns boxes that can be drawn. *)
Lemma infer_tame (g : frame) :
  height g = Server.INPUT_SIZE -> width g = Server.INPUT_SIZE ->
  exists ds,
    Server.infer g = Ok ds /\
    Forall (fun d => Props.drawable_box (Server.box d)) ds.
Proof.
  intros Hh Hw. unfold Server.infer. rewrite (preprocess_input_sized g Hh Hw).
  destruct (Props.engine_tame (cv2_resize g Server.INPUT_SIZE Server.INPUT_SIZE))
    as [(Hwf & Hshape & _) Hrange].
  apply (postprocess_all CLASS_NAMES 1 1 Props.in_int_range).
  - intros c Hc. apply detections_of_row_tame, Hc.
  - auto.
Qed.

(** The handler on the messages of a session. *)
Lemma handler_serves (frames : list frame) :
  snd (Server.ws_stream (map encode_frame frames)) = Server.Disconnected /\
  Forall2 (fun (_ : frame) r =>
             exists ds, r = Server.Detections ds /\
                        is_ok (draw_detections ds) = true)
          frames (fst (Server.ws_stream (map encode_frame frames))).
Proof.
  induction frames as [|f frames [IHc IHr]]; [split; [reflexivity|constructor]|].
  destruct (codec_keeps_shape (cv2_resize f YOLO_INPUT_SIZE YOLO_INPUT_SIZE))
    as (g & Hdec & Hh & Hw).
  destruct (infer_tame g Hh Hw) as (ds & Hinf & Hds).
  cbn [map]. unfold encode_frame at 1 3.
  rewrite (ws_stream_cons_decoded _ _ _ _ Hdec Hinf). cbn [fst snd].
  split; [exact IHc|]. constructor; [|exact IHr].
  exists ds. split; [reflexivity|]. apply valid_detections_drawable, Hds.
Qed.

Lemma served_completed (w : world) (annotate : bool) (idx : nat) :
  Props.served w -> (idx < length (video w))%nat ->
  completed annotate (exchanges w idx) = true.
Proof.
  intros Hserved Hidx.
  destruct (Hserved idx Hidx) as (t0 & t1 & msg & -> & Hmsg).
  destruct (handler_serves (video w)) as [_ HF].
  destruct (Forall2_lookup_r _ _ _ _ _ HF Hmsg) as (f & _ & ds & -> & Hdraw).
  unfold completed. destruct annotate; [exact Hdraw|reflexivity].
Qed.

(** X11.  Client and server composed, for a codec that keeps the size of an
    image and an engine whose outputs have the documented shape and hold
    finite numbers in the range of a C [int].  The handler answers every
    message a session sends for its video with detections the client can
    draw, and it ends only when the peer disconnects.  When these replies
    arrive, no session stops early: [client.py] finishes with one record
    per frame of the video, and a harness session returns one record per
    frame and reports no error, with or without an output video. *)
Theorem served_sessions_complete (w : world) :
  (snd (Server.ws_stream (map encode_frame (video w))) = Server.Disconnected /\
   Forall2 (fun (_ : frame) r =>
              exists ds, r = Server.Detections ds /\
                         is_ok (draw_detections ds) = true)
           (video w) (fst (Server.ws_stream (map encode_frame (video w))))) /\
  (Props.served w ->
   cap_isOpened w = true -> connect w = Connected ->
   (writer_isOpened w = true ->
    exists b sm,
      fst (Client.stream_video w) = Client.Finished b sm /\
      length b = length (video w)) /\
   (forall a cid,
      (Harness.annotates a = true -> mkdir_ok w = true) ->
      exists s,
        Harness.stream_video a cid w = Ok s /\
        length (bench s) = length (video w) /\
        log s = [])).
Proof.
  split; [apply handler_serves|].
  intros Hserved Hcap Hconn. split.
  - intros Hwr.
    destruct (client_finishes w Hcap Hwr Hconn) as (st & Hrun & Hlen & _).
    { intros idx Hidx. apply served_completed; assumption. }
    rewrite Hrun. simpl. eauto.
  - intros a cid Hdir.
    destruct (harness_returns a cid w) as [s Hs]; [auto|].
    exists s. split; [exact Hs|].
    destruct (harness_trace _ _ _ _ Hs) as (k & T & Hstop).
    rewrite (trace_length _ _ _ _ _ T).
    destruct Hstop as [(Hc & _)|[(_ & e & Hc & _)|(_ & _ & [(Hk & Hlog)|(Hk & Hfail & _)])]].
    + congruence.
    + congruence.
    + auto.
    + rewrite served_completed in Hfail by assumption. discriminate.
Qed.

End ServedSessions.

Section ServedSessionsExamples.
Import Session.

Lemma toy_tame : Props.TameEngine (eng := Fixture.toy_engine).
Proof.
  intros inp. split; [apply two_rows_documented|].
  cbn [session_run Fixture.toy_engine Fixture.two_rows NumPy.data].
  apply Forall_map, Forall_forall. intros q Hq. exists q. split; [reflexivity|].
  repeat (apply elem_of_cons in Hq; destruct Hq as [->|Hq];
          [split; unfold Qle; simpl; lia|]).
  apply elem_of_nil in Hq. contradiction.
Qed.

Lemma toy_served :
  Props.served (cv := Fixture.toy_cv) (eng := Fixture.toy_engine) Sample.served_world.
Proof.
  intros idx Hidx. exists 0%Q, 1%Q, Sample.toy_reply. split; [reflexivity|].
  destruct idx as [|[|idx]]; [reflexivity|reflexivity|].
  cbn [video Sample.served_world length] in Hidx. lia.
Qed.

Lemma served_sessions_complete_witness :
  (snd (Server.ws_stream (cv := Fixture.toy_cv) (eng := Fixture.toy_engine)
          (map (encode_frame (cv := Fixture.toy_cv)) (video Sample.served_world)))
   = Server.Disconnected /\
   Forall2 (fun (_ : frame) r =>
              exists ds, r = Server.Detections ds /\
                         is_ok (draw_detections ds) = true)
           (video Sample.served_world)
           (fst (Server.ws_stream (cv := Fixture.toy_cv) (eng := Fixture.toy_engine)
                   (map (encode_frame (cv := Fixture.toy_cv))
                        (video Sample.served_world))))) /\
  (writer_isOpened Sample.served_world = true ->
   exists b sm,
     fst (Client.stream_video (cv := Fixture.toy_cv) Sample.served_world)
     = Client.Finished b sm /\
     length b = length (video Sample.served_world)) /\
  (forall a cid,
     (Harness.annotates a = true -> mkdir_ok Sample.served_world = true) ->
     exists s,
       Harness.stream_video (cv := Fixture.toy_cv) a cid Sample.served_world = Ok s /\
       length (bench s) = length (video Sample.served_world) /\
       log s = []).
Proof.
  split.
  - apply (proj1 (served_sessions_complete (cv := Fixture.toy_cv)
                    (eng := Fixture.toy_engine) (keeps := toy_cv_keeps_shape)
                    (tame := toy_tame) Sample.served_world)).
  - apply (proj2 (served_sessions_complete (cv := Fixture.toy_cv)
                    (eng := Fixture.toy_engine) (keeps := toy_cv_keeps_shape)
                    (tame := toy_tame) Sample.served_world)).
    + exact toy_served.
    + reflexivity.
    + reflexivity.
Defined.

End ServedSessionsExamples.

(** ** The order of the merged records *)

Section MergedOrder.
Context `{cv : OpenCV}.
Import Session.

Lemma harness_record_at a cid w s i (r : Bench.record) :
  Harness.stream_video a cid w = Ok s -> bench s !! i = Some r ->
  Bench.client_id r = Some cid /\ Bench.frame_no r = (i + 1)%nat.
Proof.
  intros Hs Hi. split.
  - apply (harness_tagged _ _ _ _ _ Hs). apply list_elem_of_lookup. eauto.
  - destruct (harness_trace _ _ _ _ Hs) as (k & T & _).
    destruct (trace_lookup _ _ _ _ _ _ _ T Hi) as [_ Hrec].
    exact (record_of_frame_no _ _ _ _ Hrec).
Qed.

Lemma merged_sorted a worlds : forall ss start,
  Forall2 (fun i s => Harness.stream_video a i (worlds i) = Ok s)
          (seq start (length ss)) ss ->
  forall p q r1 r2,
    (p < q)%nat ->
    concat (map bench ss) !! p = Some r1 ->
    concat (map bench ss) !! q = Some r2 ->
    exists c1 c2,
      Bench.client_id r1 = Some c1 /\ Bench.client_id r2 = Some c2 /\
      (start <= c1)%nat /\
      ((c1 < c2)%nat \/ (c1 = c2 /\ (Bench.frame_no r1 < Bench.frame_no r2)%nat)).
Proof.
  induction ss as [|s ss IH]; intros start HF p q r1 r2 Hpq H1 H2.
  - cbn [map concat] in H1. rewrite lookup_nil in H1. discriminate.
  - cbn [length seq] in HF. apply Forall2_cons in HF. destruct HF as [Hs HF].
    cbn [map concat] in H1, H2.
    destruct (decide (p < length (bench s))%nat) as [Hp|Hp].
    + rewrite lookup_app_l in H1 by exact Hp.
      destruct (harness_record_at _ _ _ _ _ _ Hs H1) as [Hid1 Hfr1].
      destruct (decide (q < length (bench s))%nat) as [Hq|Hq].
      * rewrite lookup_app_l in H2 by exact Hq.
        destruct (harness_record_at _ _ _ _ _ _ Hs H2) as [Hid2 Hfr2].
        exists start, start. split; [exact Hid1|]. split; [exact Hid2|]. split; [lia|]. right. split; [reflexivity|lia].
      * rewrite lookup_app_r in H2 by lia.
        destruct (merged_origin a worlds _ _ r2 HF) as (c2 & Hc2 & Hid2).
        { apply list_elem_of_lookup. eauto. }
        apply elem_of_seq in Hc2.
        exists start, c2. split; [exact Hid1|]. split; [exact Hid2|]. split; [lia|]. left. lia.
    + rewrite lookup_app_r in H1 by lia. rewrite lookup_app_r in H2 by lia.
      assert (Hpq' : (p - length (bench s) < q - length (bench s))%nat) by lia.
      destruct (IH (S start) HF _ _ _ _ Hpq' H1 H2)
        as (c1 & c2 & Hid1 & Hid2 & Hle & Hord).
      exists c1, c2. split; [exact Hid1|]. split; [exact Hid2|]. split; [lia|exact Hord].
Qed.

(** X12.  The merged benchmark of the harness is sorted: the records come by
    client id and, for one client, by frame number, each strictly after the
    one before.  So no (client, frame) pair occurs twice, whatever the
    order in which the concurrent sessions ran. *)
Theorem merged_records_sorted (a : Harness.args) (worlds : nat -> world)
    (rep : Harness.report) (p q : nat) (r1 r2 : Bench.record) :
  Harness.main a worlds = Ok rep ->
  (p < q)%nat ->
  Harness.all_benchmarks rep !! p = Some r1 ->
  Harness.all_benchmarks rep !! q = Some r2 ->
  exists c1 c2,
    Bench.client_id r1 = Some c1 /\ Bench.client_id r2 = Some c2 /\
    ((c1 < c2)%nat \/ (c1 = c2 /\ (Bench.frame_no r1 < Bench.frame_no r2)%nat)).
Proof.
  intros Hm Hpq H1 H2. destruct (main_inv _ _ _ Hm) as (HF & Hall & _).
  rewrite Hall in H1, H2.
  assert (Hlen : length (Harness.results rep) = Harness.clients a).
  { apply Forall2_length in HF. rewrite length_seq in HF. auto. }
  rewrite <- Hlen in HF.
  destruct (merged_sorted a worlds _ 0%nat HF p q r1 r2 Hpq H1 H2)
    as (c1 & c2 & Hid1 & Hid2 & _ & Hord).
  eauto.
Qed.

End MergedOrder.

Section MergedOrderExamples.

Lemma merged_records_sorted_witness :
  exists c1 c2,
    Bench.client_id Sample.last_of_client_0 = Some c1 /\
    Bench.client_id Sample.first_of_client_1 = Some c2 /\
    ((c1 < c2)%nat \/
     (c1 = c2 /\
      (Bench.frame_no Sample.last_of_client_0
       < Bench.frame_no Sample.first_of_client_1)%nat)).
Proof.
  apply (merged_records_sorted (cv := Fixture.toy_cv) (Fixture.benchmark_only 2)
           Fixture.one_drops Sample.merged_report 1 2).
  - vm_compute. reflexivity.
  - lia.
  - vm_compute. reflexivity.
  - vm_compute. reflexivity.
Defined.

End MergedOrderExamples.

(** ** The benchmark file *)

Section BenchmarkFile.
Import Csv.

Lemma writerows_harness (records : list Bench.record) :
  writerows ["client_id"; "frame"; "delay_ms"; "fps"] (map dict_of records)
  = Ok (map harness_row records).
Proof.
  induction records as [|r records IH]; [reflexivity|].
  cbn [map writerows]. rewrite IH.
  unfold dict_of, harness_row, client_row.
  destruct (Bench.client_id r); reflexivity.
Qed.

Lemma writerows_client (records : list Bench.record) :
  Forall (fun r => Bench.client_id r = None) records ->
  writerows ["frame"; "delay_ms"; "fps"] (map dict_of records)
  = Ok (map client_row records).
Proof.
  induction 1 as [|r records Hr _ IH]; [reflexivity|].
  cbn [map writerows]. rewrite IH.
  unfold dict_of, client_row. rewrite Hr. reflexivity.
Qed.

Lemma writerows_client_extra (good : list Bench.record) (bad : Bench.record)
    (rest : list Bench.record) :
  Forall (fun r => Bench.client_id r = None) good ->
  Bench.client_id bad <> None ->
  writerows ["frame"; "delay_ms"; "fps"] (map dict_of (good ++ bad :: rest))
  = Raise ValueError.
Proof.
  intros Hgood Hbad. induction Hgood as [|r good Hr _ IH].
  - cbn [app map writerows]. unfold dict_of.
    destruct (Bench.client_id bad); [reflexivity|contradiction].
  - cbn [app map writerows]. rewrite IH.
    unfold dict_of. rewrite Hr. reflexivity.
Qed.

Lemma writerows_client_inv (records : list Bench.record) :
  is_ok (writerows ["frame"; "delay_ms"; "fps"] (map dict_of records)) = true ->
  Forall (fun r => Bench.client_id r = None) records.
Proof.
  induction records as [|r records IH]; [constructor|].
  cbn [map writerows]. intros Hok.
  destruct (writerow _ (dict_of r)) as [row|e] eqn:Hrow; [|discriminate].
  cbn [bind] in Hok.
  destruct (writerows _ (map dict_of records)); [|discriminate].
  constructor; [|apply IH; reflexivity].
  unfold dict_of in Hrow. destruct (Bench.client_id r); [discriminate|reflexivity].
Qed.

Lemma read_rows_harness (records : list Bench.record) :
  read_rows ["client_id"; "frame"; "delay_ms"; "fps"] (map harness_row records)
  = Ok (map csv_row_of records).
Proof.
  induction records as [|r records IH]; [reflexivity|].
  cbn [map read_rows]. rewrite IH. reflexivity.
Qed.

Lemma read_rows_client (records : list Bench.record) :
  read_rows ["frame"; "delay_ms"; "fps"] (map client_row records)
  = Ok (map csv_row_of records).
Proof.
  induction records as [|r records IH]; [reflexivity|].
  cbn [map read_rows]. rewrite IH. reflexivity.
Qed.

Lemma client_records_untagged `{cv : OpenCV} (w : Session.world) :
  Forall (fun r => Bench.client_id r = None)
         (Session.bench (snd (Client.stream_video w))).
Proof.
  destruct (client_session_inv w)
    as [(Hb & _)|(_ & _ & _ & st & r & Hloop & Hb & _)]; rewrite Hb; [constructor|].
  destruct (loop_trace _ _ _ _ _ Hloop) as (k & T & _).
  apply Forall_forall. intros x Hx.
  exact (trace_tagged _ _ _ _ _ _ T Hx).
Qed.

(** X13.  The file the harness saves has the four columns in every row, none of
    them empty, one row per merged record and in the same order; read back
    as [summary.py] reads it, it gives the delay and fps of each record. *)
Theorem harness_file_has_no_empty_field `{cv : OpenCV} (a : Harness.args)
    (worlds : nat -> Session.world) (rep : Harness.report)
    (l : list Bench.record) :
  Harness.main a worlds = Ok rep -> Harness.saved rep = Some l ->
  exists f,
    harness_save_benchmark l = Ok f /\
    header f = ["client_id"; "frame"; "delay_ms"; "fps"] /\
    Forall2 (fun r row =>
               exists c, (c < Harness.clients a)%nat /\
                 row = [Int c; Int (Bench.frame_no r);
                        Float (Bench.delay_ms r); Float (Bench.fps r)])
            l (rows f) /\
    read_rows (header f) (rows f) = Ok (map csv_row_of l).
Proof.
  intros Hm Hsaved. destruct (main_inv _ _ _ Hm) as (HF & Hall & _ & Hs).
  assert (Hl : l = Harness.all_benchmarks rep).
  { rewrite Hs in Hsaved. destruct (Harness.all_benchmarks rep); congruence. }
  unfold harness_save_benchmark, save_benchmark. rewrite writerows_harness.
  eexists. split; [reflexivity|]. cbn [header rows].
  split; [reflexivity|]. split; [|apply read_rows_harness].
  apply Forall2_fmap_r, Forall_Forall2_diag, Forall_forall. intros r Hr.
  rewrite Hl, Hall in Hr.
  destruct (merged_origin a worlds _ _ r HF Hr) as (c & Hc & Hid).
  apply elem_of_seq in Hc. exists c. split; [lia|].
  unfold harness_row, client_row. rewrite Hid. reflexivity.
Qed.

(** X14.  [client.py]'s writer accepts exactly the records without a
    ["client_id"] key: a record that has one makes [writerows] raise
    [ValueError].  The records of its own session always pass, and the
    file then holds one row of three filled columns per frame of the
    video. *)
Theorem client_file_rejects_client_ids `{cv : OpenCV} :
  (forall records,
     is_ok (client_save_benchmark records) = true <->
     Forall (fun r => Bench.client_id r = None) records) /\
  (forall good bad rest,
     Forall (fun r => Bench.client_id r = None) good ->
     Bench.client_id bad <> None ->
     client_save_benchmark (good ++ bad :: rest) = Raise ValueError) /\
  (forall w b sm,
     fst (Client.stream_video w) = Client.Finished b sm ->
     exists f,
       client_save_benchmark b = Ok f /\
       rows f = map client_row b /\
       length (rows f) = length (Session.video w) /\
       read_rows (header f) (rows f) = Ok (map csv_row_of b)).
Proof.
  assert (Hbad : forall good bad rest,
     Forall (fun r => Bench.client_id r = None) good ->
     Bench.client_id bad <> None ->
     client_save_benchmark (good ++ bad :: rest) = Raise ValueError).
  { intros good bad rest Hgood Hb.
    unfold client_save_benchmark, save_benchmark.
    rewrite writerows_client_extra by assumption. reflexivity. }
  assert (Hgood : forall records,
     Forall (fun r => Bench.client_id r = None) records ->
     client_save_benchmark records
     = Ok {| header := ["frame"; "delay_ms"; "fps"];
             rows := map client_row records |}).
  { intros records Hall. unfold client_save_benchmark, save_benchmark.
    rewrite writerows_client by exact Hall. reflexivity. }
  split; [|split; [exact Hbad|]].
  - intros records. split.
    + unfold client_save_benchmark, save_benchmark.
      intros Hok. apply writerows_client_inv.
      destruct (writerows _ _); [reflexivity|discriminate].
    + intros Hall. rewrite (Hgood _ Hall). reflexivity.
  - intros w b sm Hfin.
    destruct (client_finished_inv _ _ _ Hfin) as (Hcap & Hwr & Hconn & Hcomp).
    destruct (client_finishes w Hcap Hwr Hconn Hcomp) as (st & Hrun & Hlen & _).
    pose proof (client_records_untagged w) as Hnone.
    rewrite Hrun in Hfin, Hnone. simpl in Hfin, Hnone. injection Hfin as <- _.
    rewrite (Hgood _ Hnone). eexists. split; [reflexivity|]. cbn [header rows].
    split; [reflexivity|]. split; [rewrite length_map; exact Hlen|].
    apply read_rows_client.
Qed.

(** X15.  [summary.py] on a file the harness saved returns its four figures
    when the file has at least two rows.  On a file of one row the outcome
    depends on the interpreter: up to Python 3.12 it raises
    [StatisticsError]; from 3.13 on it returns, with both percentiles
    equal to the delay of that row. *)
Theorem analysis_needs_two_rows `{py : Python} (records : list Bench.record)
    (f : file) :
  harness_save_benchmark records = Ok f ->
  ((2 <= length records)%nat -> is_ok (analyze_file f) = true) /\
  (forall r, records = [r] ->
     ((minor <= 12)%nat -> analyze_file f = Raise StatisticsError) /\
     ((13 <= minor)%nat ->
      exists m, analyze_file f = Ok m /\
                Summary.p95_latency m = Bench.delay_ms r /\
                Summary.p99_latency m = Bench.delay_ms r)).
Proof.
  unfold harness_save_benchmark, save_benchmark. rewrite writerows_harness.
  intros [= <-]. unfold analyze_file. cbn [header rows].
  rewrite read_rows_harness. cbn [bind]. split.
  - intros Hlen. apply analyze_returns. rewrite length_map. exact Hlen.
  - intros r ->. cbn [map]. split.
    + apply single_row_before_3_13.
    + apply single_row_from_3_13.
Qed.

End BenchmarkFile.

Section BenchmarkFileExamples.
Import Csv.

Lemma harness_file_has_no_empty_field_witness :
  exists f,
    harness_save_benchmark (Harness.all_benchmarks Sample.merged_report) = Ok f /\
    header f = ["client_id"; "frame"; "delay_ms"; "fps"] /\
    Forall2 (fun r row =>
               exists c, (c < Harness.clients (Fixture.benchmark_only 2))%nat /\
                 row = [Int c; Int (Bench.frame_no r);
                        Float (Bench.delay_ms r); Float (Bench.fps r)])
            (Harness.all_benchmarks Sample.merged_report) (rows f) /\
    read_rows (header f) (rows f)
    = Ok (map csv_row_of (Harness.all_benchmarks Sample.merged_report)).
Proof.
  apply (harness_file_has_no_empty_field (cv := Fixture.toy_cv)
           (Fixture.benchmark_only 2) Fixture.one_drops Sample.merged_report).
  - vm_compute. reflexivity.
  - vm_compute. reflexivity.
Defined.

Lemma analysis_needs_two_rows_witness :
  is_ok (analyze_file (py := Sample.python_3_12) Sample.merged_file) = true.
Proof.
  apply (proj1 (analysis_needs_two_rows (py := Sample.python_3_12)
                  (Harness.all_benchmarks Sample.merged_report)
                  Sample.merged_file eq_refl)).
  vm_compute. lia.
Defined.

End BenchmarkFileExamples.

(** ** The names of the output videos *)

Section VideoNames.
Import Paths.

Lemma list_ascii_of_string_app (s t : string) :
  list_ascii_of_string (s +:+ t) = (list_ascii_of_string s ++ list_ascii_of_string t)%list.
Proof. induction s as [|c s IH]; [reflexivity|]. simpl. rewrite IH. reflexivity. Qed.

Lemma string_app_inv_tail (s1 s2 t : string) : s1 +:+ t = s2 +:+ t -> s1 = s2.
Proof.
  intros H. apply (f_equal list_ascii_of_string) in H.
  rewrite !list_ascii_of_string_app in H. apply app_inv_tail in H.
  rewrite <- (string_of_list_ascii_of_string s1), <- (string_of_list_ascii_of_string s2).
  rewrite H. reflexivity.
Qed.

(** X16.  With more than one client every session writes its own video file:
    different client ids give different names.  With one client the name
    is the one given on the command line. *)
Theorem client_videos_do_not_collide (clients : nat) (out_path : path) :
  ((1 < clients)%nat ->
   forall i j, client_video_out clients out_path i = client_video_out clients out_path j ->
               i = j) /\
  ((clients <= 1)%nat ->
   forall i, client_video_out clients out_path i = str out_path).
Proof.
  unfold client_video_out, with_name. split.
  - intros Hc i j. apply Nat.ltb_lt in Hc. rewrite Hc. intros H.
    do 4 apply String.app_inj in H. apply string_app_inv_tail in H.
    exact (pretty_nat_inj _ _ H).
  - intros Hc i. destruct (1 <? clients)%nat eqn:E; [|reflexivity].
    apply Nat.ltb_lt in E. lia.
Qed.

End VideoNames.

(** ** The printed summary *)

Section PrintedSummary.





End PrintedSummary.

